(** * Pong (Svelte): physics, AI controller, match store, input and engine tick

    A shallow embedding of the simulation core of the game:
    [gameConfig.js], [physics.js], [ai.js], [gameStore.js],
    [inputHandler.js] and the physics tick of [gameEngine.js].

    Numbers.  JavaScript numbers are IEEE-754 doubles.  Positions, speeds
    and angles are read here as real numbers: finite values with exact
    arithmetic, [Math.cos], [Math.sin] and [Math.hypot] as the real
    functions.  Non-finite values ([NaN], the infinities a division by
    zero produces) are outside the model; the only division whose divisor
    the source does not guard is the AI's time-to-reach when the ball has
    no horizontal speed, and there the model follows Rocq's total division.
    What is proved of the value of that division is therefore stated for a
    ball with [b_vx <> 0]; with [b_vx = 0] the source computes with an
    infinity or with [NaN].
    Scores are small counters and are kept as integers.

    Objects.  A lookup [obj[name]] on an object literal finds the literal's
    own properties first and then the members every object inherits.  Both
    are modelled where the name is the caller's choice: the difficulty key
    of [createAI] and the side of [updatePaddlePosition].  The key table is
    read with the four action names only.

    Randomness.  Every [Math.random()] call is an explicit argument, a real
    [u] with [0 <= u < 1]. *)

From Stdlib Require Import Reals Lra Psatz ZArith Bool List String Ascii.
Import ListNotations.

Open Scope R_scope.

(** ** JavaScript arithmetic helpers *)

Module Js.

(** [a < b] and [a <= b] as the booleans the source branches on. *)
Definition ltb (a b : R) : bool := if Rlt_dec a b then true else false.
Definition leb (a b : R) : bool := if Rle_dec a b then true else false.
Definition gtb (a b : R) : bool := ltb b a.
Definition geb (a b : R) : bool := leb b a.

(** [Math.sign]. *)
Definition sign (x : R) : R :=
  if Rlt_dec 0 x then 1 else if Rlt_dec x 0 then -1 else 0.

(** [x || d] on numbers: [d] when [x] is zero, [x] otherwise. *)
Definition or_else (x d : R) : R := if Req_dec_T x 0 then d else x.

(** [Math.hypot] with two arguments. *)
Definition hypot (x y : R) : R := sqrt (x * x + y * y).

(** The names of the members every object literal inherits from
    [Object.prototype]; each is a function or an object, hence truthy, and
    none has a [height] or a [multiplier]. *)
Definition objectPrototypeMembers : list string :=
  ["constructor"; "hasOwnProperty"; "isPrototypeOf"; "propertyIsEnumerable";
   "toLocaleString"; "toString"; "valueOf"; "__proto__";
   "__defineGetter__"; "__defineSetter__";
   "__lookupGetter__"; "__lookupSetter__"]%string.

Definition inherited (name : string) : bool :=
  existsb (String.eqb name) objectPrototypeMembers.

End Js.

(** ** gameConfig.js *)

Module GAME_CONFIG.

Definition DEFAULT_WIDTH : R := 800.
Definition DEFAULT_HEIGHT : R := 500.
Definition MIN_WIDTH : R := 480.
Definition MIN_HEIGHT : R := 320.
Definition ASPECT_RATIO : R := 0.625.
Definition MAX_DPR : R := 2.

Definition PADDLE_WIDTH : R := 12.
Definition PADDLE_HEIGHT_RATIO : R := 0.18.
Definition PADDLE_SPEED : R := 7.
Definition PADDLE_MARGIN : R := 20.
Definition MIN_PADDLE_HEIGHT : R := 60.

Definition BALL_SIZE : R := 10.
Definition BALL_SPEED_START : R := 5.2.
Definition BALL_SPEED_MAX : R := 13.0.
Definition BALL_SPEED_INCREASE : R := 1.06.
Definition MIN_BALL_SPEED_Y : R := 0.9.
Definition MIN_BALL_SPEED_Y_INITIAL : R := 1.2.

Definition AI_SPEED : R := 5.5.

Definition WIN_SCORE : Z := 11.

Definition MAX_REFLECTION_ANGLE : R := PI * 0.35.
Definition ANGLE_VARIATION : R := 0.6.

(** The key table [KEYS]. *)
Definition KEYS (action : string) : option (list string) :=
  if String.eqb action "up" then Some ["arrowup"; "w"]%string
  else if String.eqb action "down" then Some ["arrowdown"; "s"]%string
  else if String.eqb action "pause" then Some [" "; "spacebar"]%string
  else if String.eqb action "restart" then Some ["r"]%string
  else None.

End GAME_CONFIG.

(** [String.prototype.toLowerCase], on the ASCII letters. *)
Definition lower_ascii (c : ascii) : ascii :=
  let n := nat_of_ascii c in
  if (Nat.leb 65 n && Nat.leb n 90)%bool then ascii_of_nat (n + 32) else c.

Fixpoint toLowerCase (s : string) : string :=
  match s with
  | EmptyString => EmptyString
  | String c rest => String (lower_ascii c) (toLowerCase rest)
  end.

(** [getKeysForAction]: the table entry, or the empty array. *)
Definition getKeysForAction (action : string) : list string :=
  match GAME_CONFIG.KEYS action with
  | Some ks => ks
  | None => []
  end.

(** [isKeyForAction]. *)
Definition isKeyForAction (key action : string) : bool :=
  existsb (String.eqb (toLowerCase key)) (getKeysForAction action).

(** ** The data model *)

Record Canvas := mkCanvas { c_width : R; c_height : R; c_dpr : R }.

Record Paddle := mkPaddle { p_y : R; p_height : R }.

Record Paddles := mkPaddles { left : Paddle; right : Paddle }.

Record Ball := mkBall { b_x : R; b_y : R; b_vx : R; b_vy : R }.

Record GameState := mkGameState
  { paused : bool; over : bool; scoreLeft : Z; scoreRight : Z }.

(** The bounds invariant of a paddle on a canvas of a given height. *)
Definition in_bounds (p : Paddle) (canvasHeight : R) : Prop :=
  0 <= p_y p <= canvasHeight - p_height p.

(** ** physics.js *)

Module Physics.

Import GAME_CONFIG.

Definition clamp (value min max : R) : R := Rmax min (Rmin max value).

Record Velocity := mkVelocity { vx : R; vy : R }.

(** The launch angle a hit position maps to. *)
Definition reflectionAngle (hitPosition : R) : R :=
  let offCenter := (hitPosition - 0.5) * 2 in
  offCenter * MAX_REFLECTION_ANGLE.

(** The speed after a paddle hit: increased, capped. *)
Definition reflectionSpeed (currentVX currentVY : R) : R :=
  let currentSpeed := Js.hypot currentVX currentVY in
  Rmin (currentSpeed * BALL_SPEED_INCREASE) BALL_SPEED_MAX.

Definition calculateReflection
    (hitPosition : R) (isLeftPaddle : bool) (currentVX currentVY : R)
    : Velocity :=
  let angle := reflectionAngle hitPosition in
  let newSpeed := reflectionSpeed currentVX currentVY in
  let direction : R := if isLeftPaddle then 1 else -1 in
  let vx0 := cos angle * newSpeed * direction in
  let vy0 := sin angle * newSpeed in
  let vy1 :=
    if Js.ltb (Rabs vy0) MIN_BALL_SPEED_Y
    then Js.sign (Js.or_else vy0 1) * MIN_BALL_SPEED_Y
    else vy0 in
  mkVelocity vx0 vy1.

Record PaddleHit := mkPaddleHit
  { hitPosition : R; newX : R; isLeftPaddle : bool }.

Definition paddleX (isLeft : bool) (canvasWidth : R) : R :=
  if isLeft then PADDLE_MARGIN
  else canvasWidth - PADDLE_MARGIN - PADDLE_WIDTH.

Definition ballRadius : R := BALL_SIZE / 2.

Definition checkPaddleCollision
    (ball : Ball) (paddle : Paddle) (isLeft : bool) (canvasWidth : R)
    : option PaddleHit :=
  let px := paddleX isLeft canvasWidth in
  let ballInXRange :=
    if isLeft
    then Js.leb (b_x ball - ballRadius) (px + PADDLE_WIDTH)
         && Js.gtb (b_x ball) px
    else Js.geb (b_x ball + ballRadius) px
         && Js.ltb (b_x ball) (px + PADDLE_WIDTH) in
  let ballInYRange :=
    Js.geb (b_y ball) (p_y paddle)
    && Js.leb (b_y ball) (p_y paddle + p_height paddle) in
  let movingTowardPaddle :=
    if isLeft then Js.ltb (b_vx ball) 0 else Js.gtb (b_vx ball) 0 in
  if ballInXRange && ballInYRange && movingTowardPaddle
  then
    Some (mkPaddleHit
            ((b_y ball - p_y paddle) / p_height paddle)
            (if isLeft
             then px + PADDLE_WIDTH + ballRadius + 0.5
             else px - ballRadius - 0.5)
            isLeft)
  else None.

Record WallHit := mkWallHit { newY : R; newVY : R }.

Definition checkWallCollision (ball : Ball) (canvasHeight : R)
    : option WallHit :=
  if Js.leb (b_y ball - ballRadius) 0 && Js.ltb (b_vy ball) 0
  then Some (mkWallHit ballRadius (- b_vy ball))
  else if Js.geb (b_y ball + ballRadius) canvasHeight
          && Js.gtb (b_vy ball) 0
  then Some (mkWallHit (canvasHeight - ballRadius) (- b_vy ball))
  else None.

(** ['left'], ['right'] or [null]. *)
Definition checkScoring (ball : Ball) (canvasWidth : R) : option string :=
  if Js.ltb (b_x ball) (- ballRadius) then Some "right"%string
  else if Js.gtb (b_x ball) (canvasWidth + ballRadius)
  then Some "left"%string
  else None.

Definition updateBallPosition (ball : Ball) : Ball :=
  mkBall (b_x ball + b_vx ball) (b_y ball + b_vy ball)
         (b_vx ball) (b_vy ball).

Definition updatePaddlePosition
    (paddle : Paddle) (movement speed canvasHeight : R) : Paddle :=
  let newY := p_y paddle + movement * speed in
  mkPaddle (clamp newY 0 (canvasHeight - p_height paddle))
           (p_height paddle).

End Physics.

(** ** ai.js *)

Module AI.

Import GAME_CONFIG.

(** The reactive controller. *)
Definition calculateAIMovement
    (ball : Ball) (paddle : Paddle) (canvasHeight : R) : R :=
  let targetY := b_y ball - p_height paddle / 2 in
  let currentY := p_y paddle in
  let distance := targetY - currentY in
  if Js.leb (Rabs distance) AI_SPEED then 0
  else
    let direction := Js.sign distance in
    let movement := direction * AI_SPEED in
    let newY := currentY + movement in
    let maxY := canvasHeight - p_height paddle in
    if Js.ltb newY 0 then - currentY
    else if Js.gtb newY maxY then maxY - currentY
    else movement.

(** The prediction error added to the predicted ball position; [u] is the
    [Math.random()] sample. *)
Definition imperfection (difficulty : R) : R :=
  (1 - Rmin difficulty 1) * 50.

(** The predictive controller; [u] is the [Math.random()] sample drawn in
    the intercept branch.  The time to reach divides by [b_vx ball], which
    the first test only shows not to be negative; see the note on numbers
    at the head of the file for [b_vx ball = 0]. *)
Definition calculatePredictiveAIMovement
    (ball : Ball) (paddle : Paddle) (canvasWidth canvasHeight : R)
    (difficulty : R) (u : R) : R :=
  if Js.ltb (b_vx ball) 0 then
    let centerY := (canvasHeight - p_height paddle) / 2 in
    let distance := centerY - p_y paddle in
    if Js.leb (Rabs distance) AI_SPEED then 0
    else Js.sign distance * AI_SPEED * 0.5
  else
    let paddleX := canvasWidth - PADDLE_MARGIN - PADDLE_WIDTH in
    let timeToReach := (paddleX - b_x ball) / b_vx ball in
    if Js.leb timeToReach 0 then calculateAIMovement ball paddle canvasHeight
    else
      let predictedY0 := b_y ball + b_vy ball * timeToReach in
      let predictedVY := b_vy ball in
      let ballRadius := BALL_SIZE / 2 in
      let predictedY1 :=
        if Js.ltb predictedY0 ballRadius && Js.ltb predictedVY 0 then
          let wallHitTime := (ballRadius - b_y ball) / b_vy ball in
          let wallHitY := ballRadius in
          let remainingTime := timeToReach - wallHitTime in
          wallHitY + (- predictedVY * remainingTime)
        else if Js.gtb predictedY0 (canvasHeight - ballRadius)
                && Js.gtb predictedVY 0 then
          let wallHitTime :=
            (canvasHeight - ballRadius - b_y ball) / b_vy ball in
          let wallHitY := canvasHeight - ballRadius in
          let remainingTime := timeToReach - wallHitTime in
          wallHitY + (- predictedVY * remainingTime)
        else predictedY0 in
      let predictedY2 := predictedY1 + (u - 0.5) * imperfection difficulty in
      let targetY := predictedY2 - p_height paddle / 2 in
      let distance := targetY - p_y paddle in
      let aiSpeed := AI_SPEED * difficulty in
      if Js.leb (Rabs distance) aiSpeed then 0
      else Js.sign distance * aiSpeed.

Record Difficulty := mkDifficulty
  { name : string; multiplier : R; description : string }.

Definition easy : Difficulty :=
  mkDifficulty "Easy" 0.6 "Slower AI with prediction errors".
Definition normal : Difficulty :=
  mkDifficulty "Normal" 1.0 "Balanced AI opponent".
Definition hard : Difficulty :=
  mkDifficulty "Hard" 1.3 "Fast AI with prediction".
Definition impossible : Difficulty :=
  mkDifficulty "Impossible" 1.8 "Perfect AI - good luck!".

Definition AI_DIFFICULTIES (key : string) : option Difficulty :=
  if String.eqb key "easy" then Some easy
  else if String.eqb key "normal" then Some normal
  else if String.eqb key "hard" then Some hard
  else if String.eqb key "impossible" then Some impossible
  else None.

(** What [AI_DIFFICULTIES[difficulty] || AI_DIFFICULTIES.normal] yields: one
    of the four settings, or, for a key that names a member every object
    inherits, that member; it is truthy, so nothing falls back to [normal],
    and it has no [multiplier]. *)
Inductive Settings :=
| Own (settings : Difficulty)
| Inherited (member : string).

(** [createAI]: the controller is its [difficultySettings]. *)
Definition createAI (difficulty : string) : Settings :=
  match AI_DIFFICULTIES difficulty with
  | Some d => Own d
  | None =>
      if Js.inherited difficulty then Inherited difficulty else Own normal
  end.

(** [difficultySettings.multiplier] as [calculatePredictiveAIMovement] takes
    it: where it is [undefined], the default parameter [1.0] applies. *)
Definition difficultyArgument (s : Settings) : R :=
  match s with
  | Own d => multiplier d
  | Inherited _ => 1.0
  end.

(** The controller's [update] for settings that are one of the four
    records: the new paddle position. *)
Definition update (difficultySettings : Difficulty)
    (ball : Ball) (paddle : Paddle) (canvasWidth canvasHeight : R)
    (u : R) : R :=
  let movement :=
    calculatePredictiveAIMovement
      ball paddle canvasWidth canvasHeight
      (multiplier difficultySettings) u in
  Rmax 0 (Rmin (p_y paddle + movement) (canvasHeight - p_height paddle)).

(** The [update] of the controller [createAI] returned, whatever its
    [difficultySettings]. *)
Definition controllerUpdate (s : Settings)
    (ball : Ball) (paddle : Paddle) (canvasWidth canvasHeight : R)
    (u : R) : R :=
  let movement :=
    calculatePredictiveAIMovement
      ball paddle canvasWidth canvasHeight (difficultyArgument s) u in
  Rmax 0 (Rmin (p_y paddle + movement) (canvasHeight - p_height paddle)).

End AI.

(** ** gameStore.js *)

Module Store.

Import GAME_CONFIG.

(** The four stores the simulation reads and writes. *)
Record t := mk
  { canvas : Canvas; paddles : Paddles; ball : Ball; gameState : GameState }.

Definition set_paddles (ps : Paddles) (st : t) : t :=
  mk (canvas st) ps (ball st) (gameState st).
Definition set_ball (b : Ball) (st : t) : t :=
  mk (canvas st) (paddles st) b (gameState st).
Definition set_gameState (g : GameState) (st : t) : t :=
  mk (canvas st) (paddles st) (ball st) g.
Definition set_canvas (c : Canvas) (st : t) : t :=
  mk c (paddles st) (ball st) (gameState st).

Definition initialPaddleHeight : R :=
  Rmax MIN_PADDLE_HEIGHT (DEFAULT_HEIGHT * PADDLE_HEIGHT_RATIO).
Definition initialPaddleY : R := (DEFAULT_HEIGHT - initialPaddleHeight) / 2.

Definition initial : t :=
  mk (mkCanvas DEFAULT_WIDTH DEFAULT_HEIGHT 1)
     (mkPaddles (mkPaddle initialPaddleY initialPaddleHeight)
                (mkPaddle initialPaddleY initialPaddleHeight))
     (mkBall (DEFAULT_WIDTH / 2) (DEFAULT_HEIGHT / 2)
             BALL_SPEED_START (BALL_SPEED_START * 0.5))
     (mkGameState false false 0 0).

(** The serve angle for a sample [u]. *)
Definition serveAngle (toLeft : bool) (u : R) : R :=
  (u * ANGLE_VARIATION - ANGLE_VARIATION / 2) + (if toLeft then PI else 0).

(** [resetBall(toLeft)]; [u] is the sample of the angle. *)
Definition resetBall (toLeft : bool) (u : R) (st : t) : t :=
  let angle := serveAngle toLeft u in
  let speed := BALL_SPEED_START in
  let vx0 := cos angle * speed * (if toLeft then -1 else 1) in
  let vy0 := sin angle * speed in
  let vy1 :=
    if Js.ltb (Rabs vy0) MIN_BALL_SPEED_Y_INITIAL
    then Js.sign (Js.or_else vy0 1) * MIN_BALL_SPEED_Y_INITIAL
    else vy0 in
  set_ball (mkBall (c_width (canvas st) / 2) (c_height (canvas st) / 2)
                   vx0 vy1) st.

Definition resetPositions (st : t) : t :=
  let paddleHeight :=
    Rmax MIN_PADDLE_HEIGHT (c_height (canvas st) * PADDLE_HEIGHT_RATIO) in
  let centerY := (c_height (canvas st) - paddleHeight) / 2 in
  set_paddles (mkPaddles (mkPaddle centerY paddleHeight)
                         (mkPaddle centerY paddleHeight)) st.

(** [resetMatch]; [u_side] picks the side, [u_angle] the angle. *)
Definition resetMatch (u_side u_angle : R) (st : t) : t :=
  let st1 := set_gameState (mkGameState false false 0 0) st in
  resetBall (Js.ltb u_side 0.5) u_angle (resetPositions st1).

Definition togglePauseState (s : GameState) : GameState :=
  if over s then s
  else mkGameState (negb (paused s)) (over s) (scoreLeft s) (scoreRight s).

Definition togglePause (st : t) : t :=
  set_gameState (togglePauseState (gameState st)) st.

(** The state update of [scorePoint]. *)
Definition scorePointState (side : string) (s : GameState) : GameState :=
  let sl := if String.eqb side "left" then (scoreLeft s + 1)%Z
            else scoreLeft s in
  let sr := if String.eqb side "left" then scoreRight s
            else (scoreRight s + 1)%Z in
  if ((WIN_SCORE <=? sl) || (WIN_SCORE <=? sr))%Z
  then mkGameState true true sl sr
  else mkGameState (paused s) (over s) sl sr.

(** [scorePoint(side)]; [u] is the sample of the serve angle. *)
Definition scorePoint (side : string) (u : R) (st : t) : t :=
  let st1 := set_gameState (scorePointState side (gameState st)) st in
  resetBall (String.eqb side "right") u (resetPositions st1).

Definition updateCanvas (width height dpr : R) (st : t) : t :=
  resetPositions (set_canvas (mkCanvas width height dpr) st).

(** [updatePaddlePosition(side, y)].  The paddle object is looked up by
    name.  A name every object inherits finds that member instead of a
    paddle: its missing [height] makes the position [NaN], which is written
    to the member, and the stores are left as they are.  Any other name
    finds nothing and the source throws, which is [None] here. *)
Definition updatePaddlePosition (side : string) (y : R) (st : t)
    : option t :=
  let place (p : Paddle) : Paddle :=
    let maxY := c_height (canvas st) - p_height p in
    mkPaddle (Rmax 0 (Rmin maxY y)) (p_height p) in
  if String.eqb side "left" then
    Some (set_paddles (mkPaddles (place (left (paddles st)))
                                 (right (paddles st))) st)
  else if String.eqb side "right" then
    Some (set_paddles (mkPaddles (left (paddles st))
                                 (place (right (paddles st)))) st)
  else if Js.inherited side then Some st
  else None.

Definition updateBallPosition (x y vx vy : R) (st : t) : t :=
  set_ball (mkBall x y vx vy) st.

(** Calls a client can make on a match in progress, and a sequence of
    them run in order. *)
Inductive Call :=
| CallScorePoint (side : string) (u : R)
| CallTogglePause.

Definition call (c : Call) (st : t) : t :=
  match c with
  | CallScorePoint side u => scorePoint side u st
  | CallTogglePause => togglePause st
  end.

Fixpoint calls (cs : list Call) (st : t) : t :=
  match cs with
  | [] => st
  | c :: rest => calls rest (call c st)
  end.

End Store.

(** ** inputHandler.js *)

Module Input.

(** The intents the handler forwards through [onKeyAction]. *)
Inductive KeyAction :=
| Pause
| Restart
| Move (movement : Z).

(** [activeKeys] is a [Set] of key names: a list in insertion order,
    without repetition. *)
Definition has (keys : list string) (key : string) : bool :=
  existsb (String.eqb key) keys.

Definition add (keys : list string) (key : string) : list string :=
  if has keys key then keys else keys ++ [key].

Definition delete (keys : list string) (key : string) : list string :=
  filter (fun k => negb (String.eqb key k)) keys.

(** [Array.from(activeKeys).some(key => isKeyForAction(key, action))]. *)
Definition somePressed (activeKeys : list string) (action : string) : bool :=
  existsb (fun key => isKeyForAction key action) activeKeys.

(** [calculateMovement]. *)
Definition calculateMovement (activeKeys : list string) : Z :=
  let movement := 0%Z in
  let upPressed := somePressed activeKeys "up" in
  let movement := if upPressed then (movement - 1)%Z else movement in
  let downPressed := somePressed activeKeys "down" in
  let movement := if downPressed then (movement + 1)%Z else movement in
  movement.

(** [updateMovementState]: the value handed to [onKeyAction('move', _)]. *)
Definition updateMovementState (activeKeys : list string) : KeyAction :=
  let movement := 0%Z in
  let upPressed := somePressed activeKeys "up" in
  let movement := if upPressed then (movement - 1)%Z else movement in
  let downPressed := somePressed activeKeys "down" in
  let movement := if downPressed then (movement + 1)%Z else movement in
  Move movement.

(** [handleKeyDown]: the new key set and the intents emitted. *)
Definition handleKeyDown (eventKey : string) (activeKeys : list string)
    : list string * list KeyAction :=
  let key := toLowerCase eventKey in
  if isKeyForAction key "pause" then (activeKeys, [Pause])
  else if isKeyForAction key "restart" then (activeKeys, [Restart])
  else if isKeyForAction key "up" || isKeyForAction key "down" then
    if negb (has activeKeys key) then
      let keys' := add activeKeys key in
      (keys', [updateMovementState keys'])
    else (activeKeys, [])
  else (activeKeys, []).

(** [handleKeyUp]. *)
Definition handleKeyUp (eventKey : string) (activeKeys : list string)
    : list string * list KeyAction :=
  let key := toLowerCase eventKey in
  if has activeKeys key then
    let keys' := delete activeKeys key in
    (keys', [updateMovementState keys'])
  else (activeKeys, []).

End Input.

(** ** gameEngine.js *)

Module Engine.

Import GAME_CONFIG.

(** The engine's own variables next to the stores. *)
Record t := mk
  { store : Store.t; playerMovement : Z; ai : AI.Settings }.

(** Lines "Check wall collisions": the ball after the wall step. *)
Definition resolveWall (newBall : Ball) (canvasHeight : R) : Ball :=
  match Physics.checkWallCollision newBall canvasHeight with
  | Some wallCollision =>
      mkBall (b_x newBall) (Physics.newY wallCollision)
             (b_vx newBall) (Physics.newVY wallCollision)
  | None => newBall
  end.

(** The assignments made to [newBall] when a paddle check succeeds. *)
Definition reflectOff (newBall : Ball) (collision : Physics.PaddleHit)
    : Ball :=
  let reflection :=
    Physics.calculateReflection
      (Physics.hitPosition collision) (Physics.isLeftPaddle collision)
      (b_vx newBall) (b_vy newBall) in
  mkBall (Physics.newX collision) (b_y newBall)
         (Physics.vx reflection) (Physics.vy reflection).

(** One paddle check followed by its reflection. *)
Definition resolvePaddle
    (newBall : Ball) (paddle : Paddle) (isLeft : bool) (canvasWidth : R)
    : Ball :=
  match Physics.checkPaddleCollision newBall paddle isLeft canvasWidth with
  | Some collision => reflectOff newBall collision
  | None => newBall
  end.

(** Lines "Check paddle collisions": the left check and reflection, then
    the right check and reflection, both on the one mutable [newBall]. *)
Definition resolvePaddles
    (newBall : Ball) (updatedPaddles : Paddles) (canvasWidth : R) : Ball :=
  let newBall1 :=
    resolvePaddle newBall (left updatedPaddles) true canvasWidth in
  resolvePaddle newBall1 (right updatedPaddles) false canvasWidth.

(** [updatePhysics]; [u_ai] is the sample the AI may draw, [u_serve] the
    sample of the serve after a score. *)
Definition updatePhysics
    (playerMovement : Z) (ai : AI.Settings) (u_ai u_serve : R)
    (st : Store.t) : Store.t :=
  let currentCanvas := Store.canvas st in
  let currentPaddles := Store.paddles st in
  let currentBall := Store.ball st in
  let st1 :=
    if (playerMovement =? 0)%Z then st
    else
      let newLeftPaddle :=
        Physics.updatePaddlePosition
          (left currentPaddles) (IZR playerMovement) PADDLE_SPEED
          (c_height currentCanvas) in
      Store.set_paddles
        (mkPaddles newLeftPaddle (right (Store.paddles st))) st in
  let newRightY :=
    AI.controllerUpdate
      ai currentBall (right currentPaddles)
      (c_width currentCanvas) (c_height currentCanvas) u_ai in
  let st2 :=
    Store.set_paddles
      (mkPaddles (left (Store.paddles st1))
                 (mkPaddle newRightY (p_height (right (Store.paddles st1)))))
      st1 in
  let newBall := Physics.updateBallPosition currentBall in
  let newBall := resolveWall newBall (c_height currentCanvas) in
  let updatedPaddles := Store.paddles st2 in
  let newBall :=
    resolvePaddles newBall updatedPaddles (c_width currentCanvas) in
  match Physics.checkScoring newBall (c_width currentCanvas) with
  | Some scoring => Store.scorePoint scoring u_serve st2
  | None => Store.set_ball newBall st2
  end.

(** The state part of [gameLoop]: physics runs only while the match is
    neither paused nor over; rendering does not write the stores. *)
Definition gameLoop (u_ai u_serve : R) (e : t) : t :=
  let currentGameState := Store.gameState (store e) in
  if negb (paused currentGameState) && negb (over currentGameState)
  then mk (updatePhysics (playerMovement e) (ai e) u_ai u_serve (store e))
          (playerMovement e) (ai e)
  else e.

(** [handleKeyAction]; the two samples serve a restart. *)
Definition handleKeyAction (action : Input.KeyAction) (u_side u_angle : R)
    (e : t) : t :=
  match action with
  | Input.Pause => mk (Store.togglePause (store e)) (playerMovement e) (ai e)
  | Input.Restart =>
      mk (Store.resetMatch u_side u_angle (store e)) (playerMovement e) (ai e)
  | Input.Move value => mk (store e) value (ai e)
  end.

(** [handleTouchMove]. *)
Definition handleTouchMove (y : R) (st : Store.t) : option Store.t :=
  let currentPaddles := Store.paddles st in
  let paddleY := y - p_height (left currentPaddles) / 2 in
  Store.updatePaddlePosition "left" paddleY st.

End Engine.

(** ** The same tick with both paddle checks on one ball state

    The reading of the per-tick ordering in which the left and the right
    check are both made on the ball as the wall step left it. *)

Module SameState.

Definition resolvePaddles
    (newBall : Ball) (updatedPaddles : Paddles) (canvasWidth : R) : Ball :=
  let leftCollision :=
    Physics.checkPaddleCollision
      newBall (left updatedPaddles) true canvasWidth in
  let rightCollision :=
    Physics.checkPaddleCollision
      newBall (right updatedPaddles) false canvasWidth in
  match leftCollision, rightCollision with
  | Some collision, _ => Engine.reflectOff newBall collision
  | None, Some collision => Engine.reflectOff newBall collision
  | None, None => newBall
  end.

End SameState.

(** ** gameStore.js: derived stores *)

Module Derived.

Definition isGameRunning (s : GameState) : bool :=
  negb (paused s) && negb (over s).

(** ['player'], ['ai'] or [null]. *)
Definition winner (s : GameState) : option string :=
  if negb (over s) then None
  else Some (if (scoreLeft s >? scoreRight s)%Z then "player" else "ai")%string.

Definition canvasAspectRatio (c : Canvas) : R := c_height c / c_width c.

End Derived.

(** ** inputHandler.js: pointer events, detaching *)

Module Pointer.

(** The fields of a pointer event the handler reads; [touches] is the
    length of [event.touches] when the event has one. *)
Record Event := mkEvent
  { offsetX : R; offsetY : R; targetOffsetWidth : R;
    type : string; touches : option nat }.

(** [handlePointerDown]: the new [touchActive] and the intents emitted. *)
Definition handlePointerDown (event : Event) (touchActive : bool)
    : bool * list Input.KeyAction :=
  let x := offsetX event in
  let canvasWidth := targetOffsetWidth event in
  if Js.leb x (canvasWidth * 0.5) then
    (true,
     if String.eqb (type event) "touchstart"
        && match touches event with Some 1%nat => true | _ => false end
     then [Input.Pause] else [])
  else (touchActive, []).

(** [handlePointerMove]: the coordinate handed to [onTouchMove], if any. *)
Definition handlePointerMove (event : Event) (touchActive : bool) : option R :=
  if negb touchActive then None else Some (offsetY event).

(** [handlePointerUp]. *)
Definition handlePointerUp (touchActive : bool) : bool := false.

(** The pointer events the canvas listens to. *)
Inductive Gesture :=
| Down (event : Event)
| MoveTo (event : Event)
| Up.

(** One gesture: the new [touchActive], the intents and the coordinates
    forwarded. *)
Definition gesture (g : Gesture) (touchActive : bool)
    : bool * list Input.KeyAction * list R :=
  match g with
  | Down event =>
      let '(active, actions) := handlePointerDown event touchActive in
      (active, actions, [])
  | MoveTo event =>
      (touchActive, [],
       match handlePointerMove event touchActive with
       | Some y => [y]
       | None => []
       end)
  | Up => (handlePointerUp touchActive, [], [])
  end.

(** A sequence of gestures: the final [touchActive] and every coordinate
    forwarded, in order. *)
Fixpoint gestures (gs : list Gesture) (touchActive : bool) : bool * list R :=
  match gs with
  | [] => (touchActive, [])
  | g :: rest =>
      let '(active, _, ys) := gesture g touchActive in
      let '(final, more) := gestures rest active in
      (final, ys ++ more)
  end.

(** The state part of [detach]: both pieces of handler state are cleared. *)
Definition detach (activeKeys : list string) (touchActive : bool)
    : list string * bool := ([], false).

End Pointer.

(** ** GameCanvas.svelte: resizing *)

Module GameCanvas.

Import GAME_CONFIG.

(** [Math.floor]. *)
Definition floor (x : R) : R := IZR (Int_part x).

(** [handleResize]: the canvas written to the store, from the parent's
    bounding rectangle and [window.devicePixelRatio]. *)
Definition handleResize (rectWidth rectHeight devicePixelRatio : R) : Canvas :=
  let width := Rmax MIN_WIDTH (floor rectWidth) in
  let height :=
    Rmax MIN_HEIGHT
         (floor (Js.or_else rectHeight (rectWidth * ASPECT_RATIO))) in
  let dpr := Rmin (Js.or_else devicePixelRatio 1) MAX_DPR in
  mkCanvas width height dpr.

End GameCanvas.

(** ** A running game: the engine driven by its callers *)

Module Session.

(** What reaches the engine and its stores while a game runs. *)
Inductive Event :=
| Frame (u_ai u_serve : R)
| KeyAction (action : Input.KeyAction) (u_side u_angle : R)
| TouchMove (y : R)
| SetAIDifficulty (difficulty : string)
| Resize (rectWidth rectHeight devicePixelRatio : R).

(** [setAIDifficulty]. *)
Definition setAIDifficulty (difficulty : string) (e : Engine.t) : Engine.t :=
  Engine.mk (Engine.store e) (Engine.playerMovement e) (AI.createAI difficulty).

(** The state part of [start]: a fresh engine and a reset match. *)
Definition start (u_side u_angle : R) (st : Store.t) : Engine.t :=
  Engine.mk (Store.resetMatch u_side u_angle st) 0 (AI.createAI "normal").

Definition step (ev : Event) (e : Engine.t) : Engine.t :=
  match ev with
  | Frame u_ai u_serve => Engine.gameLoop u_ai u_serve e
  | KeyAction action u_side u_angle =>
      Engine.handleKeyAction action u_side u_angle e
  | TouchMove y =>
      match Engine.handleTouchMove y (Engine.store e) with
      | Some st => Engine.mk st (Engine.playerMovement e) (Engine.ai e)
      | None => e
      end
  | SetAIDifficulty difficulty => setAIDifficulty difficulty e
  | Resize rectWidth rectHeight devicePixelRatio =>
      Engine.mk
        (Store.set_canvas
           (GameCanvas.handleResize rectWidth rectHeight devicePixelRatio)
           (Engine.store e))
        (Engine.playerMovement e) (Engine.ai e)
  end.

Fixpoint run (evs : list Event) (e : Engine.t) : Engine.t :=
  match evs with
  | [] => e
  | ev :: rest => run rest (step ev e)
  end.

(** Keyboard events as the window delivers them, and their way through the
    input handler into the engine; the two samples serve a restart. *)
Inductive KeyEvent :=
| KeyDown (key : string) (u_side u_angle : R)
| KeyUp (key : string).

Definition dispatch (actions : list Input.KeyAction) (u_side u_angle : R)
    (e : Engine.t) : Engine.t :=
  fold_left (fun e action => Engine.handleKeyAction action u_side u_angle e)
            actions e.

Definition keyStep (ev : KeyEvent) (s : list string * Engine.t)
    : list string * Engine.t :=
  match ev with
  | KeyDown key u_side u_angle =>
      let '(keys, actions) := Input.handleKeyDown key (fst s) in
      (keys, dispatch actions u_side u_angle (snd s))
  | KeyUp key =>
      let '(keys, actions) := Input.handleKeyUp key (fst s) in
      (keys, dispatch actions 0 0 (snd s))
  end.

Fixpoint keyRun (evs : list KeyEvent) (s : list string * Engine.t)
    : list string * Engine.t :=
  match evs with
  | [] => s
  | ev :: rest => keyRun rest (keyStep ev s)
  end.

(** Repeated application, for runs of frames and of ticks. *)
Fixpoint iterate {A : Type} (f : A -> A) (n : nat) (a : A) : A :=
  match n with
  | O => a
  | S k => iterate f k (f a)
  end.

End Session.

(** ** Clients of the store, and the invariants of a match *)

Module Client.





End Client.


(** The match state the engine keeps: no score passes the win score, the
    match is over exactly when one side has it, and never both. *)
Definition engine_match_ok (g : GameState) : Prop :=
  (0 <= scoreLeft g <= GAME_CONFIG.WIN_SCORE)%Z
  /\ (0 <= scoreRight g <= GAME_CONFIG.WIN_SCORE)%Z
  /\ (over g = true <->
      scoreLeft g = GAME_CONFIG.WIN_SCORE
      \/ scoreRight g = GAME_CONFIG.WIN_SCORE)
  /\ ~ (scoreLeft g = GAME_CONFIG.WIN_SCORE
        /\ scoreRight g = GAME_CONFIG.WIN_SCORE)
  /\ (over g = true -> paused g = true).

(** The playing field in order: the canvas is high enough for a paddle,
    both paddles are within bounds and the ball is at least a radius away
    from the top and the bottom. *)
Definition field_ok (st : Store.t) : Prop :=
  let H := c_height (Store.canvas st) in
  GAME_CONFIG.MIN_PADDLE_HEIGHT <= H
  /\ in_bounds (left (Store.paddles st)) H
  /\ in_bounds (right (Store.paddles st)) H
  /\ Physics.ballRadius <= b_y (Store.ball st) <= H - Physics.ballRadius.

(** A field in order on which play can go on: the paddles have a positive
    height and the ball has a horizontal velocity. *)
Definition in_play (st : Store.t) : Prop :=
  field_ok st
  /\ 0 < p_height (left (Store.paddles st))
  /\ 0 < p_height (right (Store.paddles st))
  /\ b_vx (Store.ball st) <> 0.

(** The events of a game whose canvas keeps its size and whose serves draw
    their angle from [Math.random()]. *)
Definition plain_event (ev : Session.Event) : Prop :=
  match ev with
  | Session.Frame _ u_serve => 0 <= u_serve < 1
  | Session.KeyAction Input.Restart _ u_angle => 0 <= u_angle < 1
  | Session.Resize _ _ _ => False
  | _ => True
  end.

(** * Properties *)

(** ** Comparisons and the arithmetic helpers *)

Lemma ltb_true (a b : R) : Js.ltb a b = true <-> a < b.
Proof. unfold Js.ltb; destruct (Rlt_dec a b); split; intros; easy. Qed.

Lemma ltb_false (a b : R) : Js.ltb a b = false <-> b <= a.
Proof.
  unfold Js.ltb; destruct (Rlt_dec a b); split; intros; try easy; lra.
Qed.

Lemma leb_true (a b : R) : Js.leb a b = true <-> a <= b.
Proof. unfold Js.leb; destruct (Rle_dec a b); split; intros; easy. Qed.

Lemma leb_false (a b : R) : Js.leb a b = false <-> b < a.
Proof.
  unfold Js.leb; destruct (Rle_dec a b); split; intros; try easy; lra.
Qed.

(** Decide every comparison in sight, keeping the cases arithmetic allows. *)
Ltac js_cmp :=
  unfold Js.gtb, Js.geb, Js.ltb, Js.leb in *;
  repeat match goal with
         | |- context [Rlt_dec ?a ?b] => destruct (Rlt_dec a b)
         | |- context [Rle_dec ?a ?b] => destruct (Rle_dec a b)
         | H : context [Rlt_dec ?a ?b] |- _ => destruct (Rlt_dec a b)
         | H : context [Rle_dec ?a ?b] |- _ => destruct (Rle_dec a b)
         end;
  simpl in *; try lra; try discriminate.

Lemma sign_pos (x : R) : 0 < x -> Js.sign x = 1.
Proof. intros; unfold Js.sign; js_cmp. Qed.

Lemma sign_neg (x : R) : x < 0 -> Js.sign x = -1.
Proof. intros; unfold Js.sign; js_cmp. Qed.

Lemma sign_or_else_unit (x : R) :
  Js.sign (Js.or_else x 1) = 1 \/ Js.sign (Js.or_else x 1) = -1.
Proof.
  unfold Js.or_else; destruct (Req_dec_T x 0) as [->|Hx].
  - left; apply sign_pos; lra.
  - destruct (Rlt_dec 0 x).
    + left; now apply sign_pos.
    + right; apply sign_neg; lra.
Qed.

Lemma hypot_nonneg (x y : R) : 0 <= Js.hypot x y.
Proof. apply sqrt_pos. Qed.

Lemma hypot_pos (x y : R) : x <> 0 \/ y <> 0 -> 0 < Js.hypot x y.
Proof.
  intros H; unfold Js.hypot; apply sqrt_lt_R0.
  destruct H; nra.
Qed.

Lemma hypot_sqr (x y : R) : Js.hypot x y * Js.hypot x y = x * x + y * y.
Proof. unfold Js.hypot; apply sqrt_sqrt; nra. Qed.

Lemma hypot_le (x y m : R) :
  0 <= m -> x * x + y * y <= m * m -> Js.hypot x y <= m.
Proof.
  intros Hm H; unfold Js.hypot.
  rewrite <- (sqrt_square m Hm); apply sqrt_le_1; nra.
Qed.

Lemma hypot_gt (x y m : R) :
  0 <= m -> m * m < x * x + y * y -> m < Js.hypot x y.
Proof.
  intros Hm H; unfold Js.hypot.
  rewrite <- (sqrt_square m Hm) at 1; apply sqrt_lt_1; nra.
Qed.

Lemma cos2_sin2 (a : R) : cos a * cos a + sin a * sin a = 1.
Proof. pose proof (sin2_cos2 a) as H; unfold Rsqr in H; lra. Qed.

(** ** physics.js: the paddle reflection *)

Lemma reflectionSpeed_range (cvx cvy : R) :
  0 <= Physics.reflectionSpeed cvx cvy <= GAME_CONFIG.BALL_SPEED_MAX.
Proof.
  unfold Physics.reflectionSpeed, GAME_CONFIG.BALL_SPEED_MAX,
    GAME_CONFIG.BALL_SPEED_INCREASE.
  pose proof (hypot_nonneg cvx cvy).
  split.
  - apply Rmin_glb; lra.
  - apply Rmin_r.
Qed.

Lemma reflectionSpeed_pos (cvx cvy : R) :
  cvx <> 0 \/ cvy <> 0 -> 0 < Physics.reflectionSpeed cvx cvy.
Proof.
  intros H; pose proof (hypot_pos _ _ H).
  unfold Physics.reflectionSpeed, GAME_CONFIG.BALL_SPEED_MAX,
    GAME_CONFIG.BALL_SPEED_INCREASE.
  apply Rmin_glb_lt; lra.
Qed.

Lemma reflectionAngle_range (h : R) :
  0 <= h <= 1 ->
  - GAME_CONFIG.MAX_REFLECTION_ANGLE <= Physics.reflectionAngle h
    <= GAME_CONFIG.MAX_REFLECTION_ANGLE.
Proof.
  intros Hh; unfold Physics.reflectionAngle, GAME_CONFIG.MAX_REFLECTION_ANGLE.
  pose proof PI_RGT_0; nra.
Qed.

Lemma reflectionAngle_center : Physics.reflectionAngle 0.5 = 0.
Proof.
  unfold Physics.reflectionAngle, GAME_CONFIG.MAX_REFLECTION_ANGLE; lra.
Qed.

Lemma cos_reflectionAngle_pos (h : R) :
  0 <= h <= 1 -> 0 < cos (Physics.reflectionAngle h).
Proof.
  intros Hh; pose proof (reflectionAngle_range h Hh) as Ha.
  unfold GAME_CONFIG.MAX_REFLECTION_ANGLE in Ha; pose proof PI_RGT_0.
  apply cos_gt_0; lra.
Qed.

(** The forced vertical component has the magnitude of the threshold. *)
Lemma forced_vertical_abs (vy0 m : R) :
  0 < m -> Rabs (Js.sign (Js.or_else vy0 1) * m) = m.
Proof.
  intros Hm; destruct (sign_or_else_unit vy0) as [-> | ->].
  - rewrite Rmult_1_l, Rabs_pos_eq; lra.
  - replace (-1 * m) with (- m) by lra.
    rewrite Rabs_Ropp, Rabs_pos_eq; lra.
Qed.

(** The vertical component after the minimum-speed correction. *)
Lemma min_vertical_abs (vy0 m : R) :
  0 < m ->
  Rabs (if Js.ltb (Rabs vy0) m then Js.sign (Js.or_else vy0 1) * m else vy0)
  >= m.
Proof.
  intros Hm; destruct (Js.ltb (Rabs vy0) m) eqn:E.
  - rewrite forced_vertical_abs by assumption; lra.
  - apply ltb_false in E; lra.
Qed.

(** The reflection at the centre of the paddle: the angle is zero, the
    vertical component is the forced minimum. *)
Lemma calculateReflection_center (isLeft : bool) (cvx cvy : R) :
  Physics.calculateReflection 0.5 isLeft cvx cvy =
  Physics.mkVelocity
    (Physics.reflectionSpeed cvx cvy * (if isLeft then 1 else -1))
    GAME_CONFIG.MIN_BALL_SPEED_Y.
Proof.
  unfold Physics.calculateReflection.
  rewrite reflectionAngle_center, cos_0, sin_0, !Rmult_0_l, Rabs_R0.
  unfold GAME_CONFIG.MIN_BALL_SPEED_Y.
  replace (Js.ltb 0 0.9) with true by (symmetry; apply ltb_true; lra).
  unfold Js.or_else; destruct (Req_dec_T 0 0) as [_|N]; [|now elim N].
  rewrite sign_pos by lra.
  f_equal; lra.
Qed.

(** C1, as the claim states it, fails: a ball arriving at full speed on the
    centre of the left paddle leaves with the capped speed 13 on the
    horizontal and the forced 0.9 on the vertical, faster than
    [BALL_SPEED_MAX]. *)
Lemma reflection_speed_cap_exceeded :
  0 <= 0.5 <= 1 /\
  let v := Physics.calculateReflection 0.5 true 13 0 in
  Physics.vx v = 13 /\ Physics.vy v = 0.9 /\
  GAME_CONFIG.BALL_SPEED_MAX < Js.hypot (Physics.vx v) (Physics.vy v).
Proof.
  split; [lra|].
  rewrite calculateReflection_center; simpl.
  assert (Hs : Physics.reflectionSpeed 13 0 = 13).
  { unfold Physics.reflectionSpeed, Js.hypot,
      GAME_CONFIG.BALL_SPEED_INCREASE, GAME_CONFIG.BALL_SPEED_MAX.
    replace (13 * 13 + 0 * 0) with (13 * 13) by lra.
    rewrite sqrt_square by lra.
    rewrite Rmin_right by lra; lra. }
  rewrite Hs.
  unfold GAME_CONFIG.MIN_BALL_SPEED_Y, GAME_CONFIG.BALL_SPEED_MAX.
  repeat split; try lra.
  apply hypot_gt; lra.
Qed.

(** C1 (amended).  For every hit position, paddle and incoming velocity the
    reflected velocity has [|vy'| >= MIN_BALL_SPEED_Y] and
    [|vx'| <= BALL_SPEED_MAX]; its speed is the capped speed
    [min(1.06 * |v|, 13)], hence at most [BALL_SPEED_MAX], whenever the
    minimum-vertical-speed correction does not fire, and is at most
    [sqrt(BALL_SPEED_MAX^2 + MIN_BALL_SPEED_Y^2)] in every case. *)
Theorem calculateReflection_bounds :
  forall (h : R) (isLeft : bool) (cvx cvy : R),
    let v := Physics.calculateReflection h isLeft cvx cvy in
    let raw_vy := sin (Physics.reflectionAngle h)
                  * Physics.reflectionSpeed cvx cvy in
    Rabs (Physics.vy v) >= GAME_CONFIG.MIN_BALL_SPEED_Y
    /\ Rabs (Physics.vx v) <= GAME_CONFIG.BALL_SPEED_MAX
    /\ (GAME_CONFIG.MIN_BALL_SPEED_Y <= Rabs raw_vy ->
        Js.hypot (Physics.vx v) (Physics.vy v)
          = Physics.reflectionSpeed cvx cvy
        /\ Js.hypot (Physics.vx v) (Physics.vy v)
          <= GAME_CONFIG.BALL_SPEED_MAX)
    /\ Js.hypot (Physics.vx v) (Physics.vy v)
       <= sqrt (GAME_CONFIG.BALL_SPEED_MAX * GAME_CONFIG.BALL_SPEED_MAX
                + GAME_CONFIG.MIN_BALL_SPEED_Y * GAME_CONFIG.MIN_BALL_SPEED_Y).
Proof.
  intros h isLeft cvx cvy v raw_vy.
  pose proof (reflectionSpeed_range cvx cvy) as [Hs0 Hs1].
  pose proof (cos2_sin2 (Physics.reflectionAngle h)) as Hcs.
  set (s := Physics.reflectionSpeed cvx cvy) in *.
  set (c := cos (Physics.reflectionAngle h)) in *.
  set (sn := sin (Physics.reflectionAngle h)) in *.
  set (d := if isLeft then 1 else -1 : R).
  assert (Hd : d * d = 1) by (unfold d; destruct isLeft; lra).
  assert (Hvx : Physics.vx v = c * s * d) by reflexivity.
  assert (Hvx2 : Physics.vx v * Physics.vx v <= s * s).
  { rewrite Hvx.
    replace (c * s * d * (c * s * d)) with (c * c * (s * s) * (d * d)) by ring.
    rewrite Hd. nra. }
  assert (Hvy : Rabs (Physics.vy v) >= GAME_CONFIG.MIN_BALL_SPEED_Y).
  { apply (min_vertical_abs (sn * s)).
    unfold GAME_CONFIG.MIN_BALL_SPEED_Y; lra. }
  unfold GAME_CONFIG.BALL_SPEED_MAX, GAME_CONFIG.MIN_BALL_SPEED_Y in *.
  assert (Hraw : 0.9 <= Rabs raw_vy ->
                 Js.hypot (Physics.vx v) (Physics.vy v) = s).
  { intros Hr.
    assert (Ev : Physics.vy v = sn * s).
    { unfold v, Physics.calculateReflection; simpl.
      fold s sn. unfold GAME_CONFIG.MIN_BALL_SPEED_Y.
      replace (Js.ltb (Rabs (sn * s)) 0.9) with false; [reflexivity|].
      symmetry; apply ltb_false; exact Hr. }
    unfold Js.hypot. rewrite Hvx, Ev.
    replace (c * s * d * (c * s * d) + sn * s * (sn * s))
      with ((c * c + sn * sn) * (s * s) + c * c * (s * s) * (d * d - 1))
      by ring.
    rewrite Hd, Hcs.
    replace (1 * (s * s) + c * c * (s * s) * (1 - 1)) with (s * s) by ring.
    now apply sqrt_square. }
  repeat split.
  - exact Hvy.
  - apply Rabs_le; split; nra.
  - now apply Hraw.
  - rewrite (Hraw H); lra.
  - destruct (Rle_dec 0.9 (Rabs raw_vy)) as [Hr|Hr].
    + rewrite (Hraw Hr).
      rewrite <- (sqrt_square s Hs0); apply sqrt_le_1; nra.
    + assert (Ev : Rabs (Physics.vy v) = 0.9).
      { unfold v, Physics.calculateReflection; simpl.
        fold s sn. unfold GAME_CONFIG.MIN_BALL_SPEED_Y.
        replace (Js.ltb (Rabs (sn * s)) 0.9) with true
          by (symmetry; apply ltb_true; unfold raw_vy in Hr; lra).
        apply forced_vertical_abs; lra. }
      assert (Ev2 : Physics.vy v * Physics.vy v = 0.9 * 0.9).
      { rewrite <- Ev.
        unfold Rabs; destruct (Rcase_abs (Physics.vy v)); ring. }
      unfold Js.hypot; apply sqrt_le_1; nra.
Qed.

(** C10, as the claim states it, fails for a ball at rest: the new speed is
    zero and so is the horizontal component. *)
Lemma reflection_vx_zero_at_rest :
  0 <= 0.5 <= 1 /\
  ~ (Physics.vx (Physics.calculateReflection 0.5 true 0 0) > 0).
Proof.
  split; [lra|].
  rewrite calculateReflection_center; simpl.
  assert (Hs : Physics.reflectionSpeed 0 0 = 0).
  { unfold Physics.reflectionSpeed, Js.hypot,
      GAME_CONFIG.BALL_SPEED_INCREASE, GAME_CONFIG.BALL_SPEED_MAX.
    replace (0 * 0 + 0 * 0) with 0 by lra.
    rewrite sqrt_0, Rmin_left by lra; lra. }
  rewrite Hs; lra.
Qed.

(** C10 (amended).  For every hit position in [[0,1]] and every incoming
    velocity other than [(0,0)], the reflected horizontal velocity points
    away from the struck paddle: positive off the left paddle, negative off
    the right paddle. *)
Theorem calculateReflection_vx_sign :
  forall (h cvx cvy : R),
    0 <= h <= 1 ->
    cvx <> 0 \/ cvy <> 0 ->
    Physics.vx (Physics.calculateReflection h true cvx cvy) > 0
    /\ Physics.vx (Physics.calculateReflection h false cvx cvy) < 0.
Proof.
  intros h cvx cvy Hh Hv.
  pose proof (cos_reflectionAngle_pos h Hh) as Hc.
  pose proof (reflectionSpeed_pos cvx cvy Hv) as Hs.
  unfold Physics.calculateReflection; simpl.
  assert (0 < cos (Physics.reflectionAngle h) * Physics.reflectionSpeed cvx cvy)
    by (apply Rmult_lt_0_compat; assumption).
  split; lra.
Qed.

Lemma calculateReflection_vx_sign_witness :
  Physics.vx (Physics.calculateReflection 0.5 true (-5) 0) > 0
  /\ Physics.vx (Physics.calculateReflection 0.5 false (-5) 0) < 0.
Proof.
  apply (calculateReflection_vx_sign 0.5 (-5) 0); [lra | left; lra].
Defined.

(** ** physics.js: walls *)

(** C7.  When the ball's edge is at or past the top wall and it moves up, or
    at or past the bottom wall and it moves down, [checkWallCollision]
    returns the vertical velocity negated (equal magnitude, opposite sign)
    and the position flush against that wall; otherwise it returns [null]. *)
Theorem checkWallCollision_spec :
  forall (ball : Ball) (canvasHeight : R),
    let r := Physics.ballRadius in
    let top := b_y ball - r <= 0 /\ b_vy ball < 0 in
    let bottom := b_y ball + r >= canvasHeight /\ b_vy ball > 0 in
    r = GAME_CONFIG.BALL_SIZE / 2
    /\ (top ->
        exists w, Physics.checkWallCollision ball canvasHeight = Some w
                  /\ Physics.newY w = r
                  /\ Physics.newVY w = - b_vy ball
                  /\ Rabs (Physics.newVY w) = Rabs (b_vy ball)
                  /\ Physics.newVY w > 0)
    /\ (bottom ->
        exists w, Physics.checkWallCollision ball canvasHeight = Some w
                  /\ Physics.newY w = canvasHeight - r
                  /\ Physics.newVY w = - b_vy ball
                  /\ Rabs (Physics.newVY w) = Rabs (b_vy ball)
                  /\ Physics.newVY w < 0)
    /\ (~ top /\ ~ bottom ->
        Physics.checkWallCollision ball canvasHeight = None).
Proof.
  intros ball canvasHeight r top bottom; subst top bottom.
  split; [reflexivity|].
  unfold Physics.checkWallCollision; fold r.
  split; [|split].
  - intros [Hy Hv].
    replace (Js.leb (b_y ball - r) 0) with true
      by (symmetry; now apply leb_true).
    replace (Js.ltb (b_vy ball) 0) with true
      by (symmetry; now apply ltb_true).
    simpl; eexists; split; [reflexivity|]; simpl.
    repeat split; try lra. apply Rabs_Ropp.
  - intros [Hy Hv].
    replace (Js.ltb (b_vy ball) 0) with false
      by (symmetry; apply ltb_false; lra).
    rewrite andb_false_r.
    replace (Js.geb (b_y ball + r) canvasHeight) with true
      by (symmetry; apply leb_true; lra).
    replace (Js.gtb (b_vy ball) 0) with true
      by (symmetry; apply ltb_true; lra).
    simpl; eexists; split; [reflexivity|]; simpl.
    repeat split; try lra. apply Rabs_Ropp.
  - intros [Ht Hb].
    destruct (Js.leb (b_y ball - r) 0 && Js.ltb (b_vy ball) 0) eqn:E1.
    { apply andb_prop in E1 as [A B].
      apply leb_true in A; apply ltb_true in B; tauto. }
    destruct (Js.geb (b_y ball + r) canvasHeight && Js.gtb (b_vy ball) 0)
      eqn:E2; [|reflexivity].
    apply andb_prop in E2 as [A B].
    apply leb_true in A; apply ltb_true in B.
    exfalso; apply Hb; split; lra.
Qed.

Lemma checkWallCollision_spec_witness :
  (exists w, Physics.checkWallCollision (mkBall 100 3 4 (-2)) 500 = Some w
             /\ Physics.newY w = 5 /\ Physics.newVY w = 2)
  /\ (exists w, Physics.checkWallCollision (mkBall 100 497 4 2) 500 = Some w
                /\ Physics.newY w = 495 /\ Physics.newVY w = -2)
  /\ Physics.checkWallCollision (mkBall 100 250 4 2) 500 = None.
Proof.
  split; [|split].
  - destruct (proj1 (proj2 (checkWallCollision_spec (mkBall 100 3 4 (-2)) 500)))
      as (w & Hw & Hy & Hv & _).
    + unfold Physics.ballRadius, GAME_CONFIG.BALL_SIZE; simpl; lra.
    + exists w; unfold Physics.ballRadius, GAME_CONFIG.BALL_SIZE in Hy;
        simpl in Hv; repeat split; [assumption | lra | lra].
  - destruct (proj1 (proj2 (proj2
               (checkWallCollision_spec (mkBall 100 497 4 2) 500))))
      as (w & Hw & Hy & Hv & _).
    + unfold Physics.ballRadius, GAME_CONFIG.BALL_SIZE; simpl; lra.
    + exists w; unfold Physics.ballRadius, GAME_CONFIG.BALL_SIZE in Hy;
        simpl in Hv; repeat split; [assumption | lra | lra].
  - apply (proj2 (proj2 (proj2
             (checkWallCollision_spec (mkBall 100 250 4 2) 500)))).
    unfold Physics.ballRadius, GAME_CONFIG.BALL_SIZE; simpl; lra.
Defined.

(** ** gameStore.js: serving the ball *)

Lemma cos_serve_band_pos (u : R) :
  0 <= u < 1 ->
  0 < cos (u * GAME_CONFIG.ANGLE_VARIATION - GAME_CONFIG.ANGLE_VARIATION / 2).
Proof.
  intros Hu; unfold GAME_CONFIG.ANGLE_VARIATION.
  pose proof PI2_1.
  apply cos_gt_0; lra.
Qed.

(** The horizontal velocity [resetBall] writes. *)
Lemma resetBall_vx (toLeft : bool) (u : R) (st : Store.t) :
  b_vx (Store.ball (Store.resetBall toLeft u st)) =
  cos (Store.serveAngle toLeft u) * GAME_CONFIG.BALL_SPEED_START
  * (if toLeft then -1 else 1).
Proof. reflexivity. Qed.

(** C2: what the code does.  Whatever direction the caller chooses, the ball
    is served to the right: with [toLeft] the angle is turned by [PI] and the
    horizontal component is negated once more. *)
Theorem resetBall_vx_positive :
  forall (toLeft : bool) (u : R) (st : Store.t),
    0 <= u < 1 ->
    b_vx (Store.ball (Store.resetBall toLeft u st)) > 0.
Proof.
  intros toLeft u st Hu.
  rewrite resetBall_vx.
  pose proof (cos_serve_band_pos u Hu) as Hc.
  unfold Store.serveAngle, GAME_CONFIG.BALL_SPEED_START.
  destruct toLeft.
  - rewrite neg_cos. nra.
  - rewrite Rplus_0_r. nra.
Qed.

Lemma resetBall_vx_positive_witness :
  b_vx (Store.ball (Store.resetBall true 0.5 Store.initial)) > 0.
Proof.
  apply (resetBall_vx_positive true 0.5 Store.initial); lra.
Defined.

(** The serve to the left at the middle sample, evaluated. *)
Lemma resetBall_toLeft_middle (st : Store.t) :
  let b := Store.ball (Store.resetBall true 0.5 st) in
  b_vx b = 5.2 /\ b_vy b = 1.2.
Proof.
  assert (Ha : Store.serveAngle true 0.5 = PI).
  { unfold Store.serveAngle, GAME_CONFIG.ANGLE_VARIATION; lra. }
  cbv zeta; unfold Store.resetBall; rewrite Ha, cos_PI, sin_PI; simpl.
  unfold GAME_CONFIG.BALL_SPEED_START, GAME_CONFIG.MIN_BALL_SPEED_Y_INITIAL.
  split; [lra|].
  rewrite Rmult_0_l, Rabs_R0.
  replace (Js.ltb 0 1.2) with true by (symmetry; apply ltb_true; lra).
  unfold Js.or_else; destruct (Req_dec_T 0 0) as [_|N]; [|now elim N].
  rewrite sign_pos by lra. lra.
Qed.

(** ** gameStore.js: the match state machine *)

Lemma gameState_resetBall (toLeft : bool) (u : R) (st : Store.t) :
  Store.gameState (Store.resetBall toLeft u st) = Store.gameState st.
Proof. reflexivity. Qed.

Lemma gameState_scorePoint (side : string) (u : R) (st : Store.t) :
  Store.gameState (Store.scorePoint side u st)
  = Store.scorePointState side (Store.gameState st).
Proof. reflexivity. Qed.

Lemma gameState_togglePause (st : Store.t) :
  Store.gameState (Store.togglePause st)
  = Store.togglePauseState (Store.gameState st).
Proof. reflexivity. Qed.

Lemma scorePointState_over (side : string) (s : GameState) :
  over s = true -> over (Store.scorePointState side s) = true.
Proof.
  intros H; unfold Store.scorePointState.
  destruct (_ || _)%bool; simpl; auto.
Qed.

Lemma scorePointState_paused (side : string) (s : GameState) :
  paused s = true -> paused (Store.scorePointState side s) = true.
Proof.
  intros H; unfold Store.scorePointState.
  destruct (_ || _)%bool; simpl; auto.
Qed.

Lemma scorePointState_win (side : string) (s : GameState) :
  let s' := Store.scorePointState side s in
  (GAME_CONFIG.WIN_SCORE <= scoreLeft s'
   \/ GAME_CONFIG.WIN_SCORE <= scoreRight s')%Z ->
  over s' = true /\ paused s' = true.
Proof.
  unfold Store.scorePointState.
  set (sl := if String.eqb side "left" then _ else _).
  set (sr := if String.eqb side "left" then _ else _).
  destruct ((GAME_CONFIG.WIN_SCORE <=? sl)%Z
            || (GAME_CONFIG.WIN_SCORE <=? sr)%Z)%bool
    eqn:E; simpl; [auto|].
  apply orb_false_elim in E as [A B].
  apply Z.leb_gt in A, B. lia.
Qed.

Lemma togglePauseState_over (s : GameState) :
  over s = true -> Store.togglePauseState s = s.
Proof. intros H; unfold Store.togglePauseState; now rewrite H. Qed.

Lemma call_keeps_over (c : Store.Call) (st : Store.t) :
  over (Store.gameState st) = true /\ paused (Store.gameState st) = true ->
  over (Store.gameState (Store.call c st)) = true
  /\ paused (Store.gameState (Store.call c st)) = true.
Proof.
  intros [Ho Hp]; destruct c as [side u|]; unfold Store.call.
  - rewrite gameState_scorePoint; split.
    + now apply scorePointState_over.
    + now apply scorePointState_paused.
  - rewrite gameState_togglePause, togglePauseState_over by assumption.
    now split.
Qed.

Lemma calls_keep_over (cs : list Store.Call) :
  forall st : Store.t,
    over (Store.gameState st) = true /\ paused (Store.gameState st) = true ->
    over (Store.gameState (Store.calls cs st)) = true
    /\ paused (Store.gameState (Store.calls cs st)) = true.
Proof.
  induction cs as [|c rest IH]; intros st H; simpl.
  - exact H.
  - apply IH, call_keeps_over, H.
Qed.

(** C3, as the claim states it, fails: [scorePoint] has no guard on [over]
    and adds the point to a finished match. *)
Lemma scorePoint_counts_when_over :
  let st := Store.set_gameState (mkGameState true true 11 0) Store.initial in
  over (Store.gameState st) = true
  /\ scoreLeft (Store.gameState st) = 11%Z
  /\ scoreLeft (Store.gameState (Store.scorePoint "left" 0.5 st)) = 12%Z.
Proof. repeat split. Qed.

(** C3 (amended).  While the match is over, a frame of the game loop skips
    the physics tick (the only caller of [scorePoint]) and leaves the whole
    store, the scores with it, as it is, and so does [togglePause];
    [resetMatch] zeroes the scores.  [scorePoint] itself is not guarded: it
    still adds one to the score of the side it is given, and the match
    stays over. *)
Theorem scores_frozen_while_over :
  forall (e : Engine.t) (u_ai u_serve : R),
    over (Store.gameState (Engine.store e)) = true ->
    Engine.gameLoop u_ai u_serve e = e
    /\ Store.togglePause (Engine.store e) = Engine.store e
    /\ (forall u_side u_angle,
          let g := Store.gameState
                     (Store.resetMatch u_side u_angle (Engine.store e)) in
          scoreLeft g = 0%Z /\ scoreRight g = 0%Z /\ over g = false)
    /\ (forall side u,
          let g := Store.gameState (Engine.store e) in
          let g' :=
            Store.gameState (Store.scorePoint side u (Engine.store e)) in
          over g' = true
          /\ (side = "left"%string ->
              scoreLeft g' = (scoreLeft g + 1)%Z
              /\ scoreRight g' = scoreRight g)
          /\ (side <> "left"%string ->
              scoreLeft g' = scoreLeft g
              /\ scoreRight g' = (scoreRight g + 1)%Z)).
Proof.
  intros e u_ai u_serve Hover.
  split; [|split; [|split]].
  - unfold Engine.gameLoop. rewrite Hover, andb_false_r. reflexivity.
  - unfold Store.togglePause.
    rewrite togglePauseState_over by assumption.
    now destruct (Engine.store e).
  - intros; repeat split.
  - intros side u g g'; subst g g'.
    rewrite gameState_scorePoint.
    split; [now apply scorePointState_over|].
    unfold Store.scorePointState.
    split; intros Hs.
    + subst side; simpl.
      destruct (_ || _)%bool; simpl; auto.
    + apply String.eqb_neq in Hs; rewrite Hs.
      destruct (_ || _)%bool; simpl; auto.
Qed.

Lemma scores_frozen_while_over_witness :
  let e := Engine.mk
             (Store.set_gameState (mkGameState true true 11 3) Store.initial)
             1 (AI.Own AI.normal) in
  Engine.gameLoop 0.5 0.5 e = e.
Proof.
  intros e.
  exact (proj1 (scores_frozen_while_over e 0.5 0.5 eq_refl)).
Defined.

(** C5.  Once [scorePoint] has brought a score to the win threshold, the
    match is over and paused, every later sequence of [scorePoint] and
    [togglePause] calls keeps it over and paused, and [resetMatch] clears
    both flags. *)
Theorem over_and_paused_until_reset :
  forall (st : Store.t) (side : string) (u : R) (cs : list Store.Call),
    let st' := Store.scorePoint side u st in
    (GAME_CONFIG.WIN_SCORE <= scoreLeft (Store.gameState st')
     \/ GAME_CONFIG.WIN_SCORE <= scoreRight (Store.gameState st'))%Z ->
    (over (Store.gameState st') = true
     /\ paused (Store.gameState st') = true)
    /\ (over (Store.gameState (Store.calls cs st')) = true
        /\ paused (Store.gameState (Store.calls cs st')) = true)
    /\ (forall u_side u_angle,
          let g := Store.gameState
                     (Store.resetMatch u_side u_angle (Store.calls cs st')) in
          over g = false /\ paused g = false).
Proof.
  intros st side u cs st' Hwin.
  assert (H : over (Store.gameState st') = true
              /\ paused (Store.gameState st') = true).
  { unfold st' in *; rewrite gameState_scorePoint in *.
    now apply scorePointState_win. }
  split; [exact H|]. split.
  - now apply calls_keep_over.
  - intros; split; reflexivity.
Qed.

Lemma over_and_paused_until_reset_witness :
  let st := Store.set_gameState (mkGameState false false 10 4) Store.initial in
  let cs := [Store.CallTogglePause; Store.CallScorePoint "right" 0.25;
             Store.CallTogglePause; Store.CallScorePoint "left" 0.75] in
  let st' := Store.scorePoint "left" 0.5 st in
  over (Store.gameState (Store.calls cs st')) = true
  /\ paused (Store.gameState (Store.calls cs st')) = true.
Proof.
  intros st cs st'.
  refine (proj1 (proj2 (over_and_paused_until_reset st "left" 0.5 cs _))).
  left. unfold st, GAME_CONFIG.WIN_SCORE. simpl. lia.
Defined.

(** ** Paddle bounds *)

(** [Math.max(0, Math.min(maxY, y))] lands in [[0, maxY]] when that interval
    is not empty. *)
Lemma max0_min_range (maxY y : R) :
  0 <= maxY -> 0 <= Rmax 0 (Rmin maxY y) <= maxY.
Proof.
  intros H; split.
  - apply Rmax_l.
  - apply Rmax_lub; [assumption | apply Rmin_l].
Qed.

Lemma clamp_range (value lo hi : R) :
  lo <= hi -> lo <= Physics.clamp value lo hi <= hi.
Proof.
  intros H; unfold Physics.clamp; split.
  - apply Rmax_l.
  - apply Rmax_lub; [assumption | apply Rmin_l].
Qed.

Lemma updatePaddlePosition_in_bounds
    (paddle : Paddle) (movement speed canvasHeight : R) :
  p_height paddle <= canvasHeight ->
  in_bounds (Physics.updatePaddlePosition paddle movement speed canvasHeight)
            canvasHeight.
Proof.
  intros H; unfold in_bounds, Physics.updatePaddlePosition; simpl.
  apply clamp_range; lra.
Qed.

Lemma controllerUpdate_in_bounds
    (s : AI.Settings) (ball : Ball) (paddle : Paddle)
    (canvasWidth canvasHeight u : R) :
  p_height paddle <= canvasHeight ->
  b_vx ball <> 0 ->
  in_bounds
    (mkPaddle (AI.controllerUpdate s ball paddle canvasWidth canvasHeight u)
              (p_height paddle))
    canvasHeight.
Proof.
  intros H _; unfold in_bounds, AI.controllerUpdate; simpl.
  rewrite (Rmin_comm (p_y paddle + _)).
  apply max0_min_range; lra.
Qed.

(** For settings that are one of the four records the controller's update
    is [update]. *)
Lemma controllerUpdate_Own
    (d : AI.Difficulty) (ball : Ball) (paddle : Paddle)
    (canvasWidth canvasHeight u : R) :
  AI.controllerUpdate (AI.Own d) ball paddle canvasWidth canvasHeight u
  = AI.update d ball paddle canvasWidth canvasHeight u.
Proof. reflexivity. Qed.

Lemma resetPositions_in_bounds (st : Store.t) :
  GAME_CONFIG.MIN_PADDLE_HEIGHT <= c_height (Store.canvas st) ->
  let st' := Store.resetPositions st in
  in_bounds (left (Store.paddles st')) (c_height (Store.canvas st'))
  /\ in_bounds (right (Store.paddles st')) (c_height (Store.canvas st')).
Proof.
  unfold GAME_CONFIG.MIN_PADDLE_HEIGHT; intros H.
  unfold in_bounds, Store.resetPositions; simpl.
  unfold GAME_CONFIG.MIN_PADDLE_HEIGHT, GAME_CONFIG.PADDLE_HEIGHT_RATIO.
  set (hc := c_height (Store.canvas st)) in *.
  assert (Hm : Rmax 60 (hc * 0.18) <= hc) by (apply Rmax_lub; lra).
  lra.
Qed.

(** C6, as the claim states it, fails on a canvas lower than the paddle:
    after [updateCanvas(100, 50)] the paddles are 60 high and sit at
    [y = -5], and a player move then leaves the left paddle at [y = 0],
    above [canvasHeight - height = -10]. *)
Lemma paddle_out_of_bounds_on_low_canvas :
  let st := Store.updateCanvas 100 50 1 Store.initial in
  let p := left (Store.paddles st) in
  let p' := Physics.updatePaddlePosition
              p 1 GAME_CONFIG.PADDLE_SPEED (c_height (Store.canvas st)) in
  p_height p = 60 /\ p_y p = -5
  /\ ~ in_bounds p (c_height (Store.canvas st))
  /\ p_y p' = 0
  /\ ~ in_bounds p' (c_height (Store.canvas st)).
Proof.
  cbv zeta.
  unfold in_bounds, Store.updateCanvas, Store.resetPositions,
    Physics.updatePaddlePosition, Physics.clamp; simpl.
  unfold GAME_CONFIG.MIN_PADDLE_HEIGHT, GAME_CONFIG.PADDLE_HEIGHT_RATIO,
    GAME_CONFIG.PADDLE_SPEED.
  assert (Hh : Rmax 60 (50 * 0.18) = 60) by (apply Rmax_left; lra).
  rewrite !Hh.
  assert (Hm : Rmin (50 - 60) ((50 - 60) / 2 + 1 * 7) = 50 - 60)
    by (apply Rmin_left; lra).
  rewrite Hm.
  assert (Hx : Rmax 0 (50 - 60) = 0) by (apply Rmax_left; lra).
  rewrite Hx.
  repeat split; lra.
Qed.

(** C6 (amended).  Each update leaves the paddle it writes within
    [0 <= y <= canvasHeight - height] under the condition that update needs
    and no other: the player move of [updatePaddlePosition] when the paddle
    is no higher than the canvas; the AI [update] when the paddle is no
    higher than the canvas and the ball has a horizontal velocity other
    than zero; the store action [updatePaddlePosition], also when driven by
    touch, when the stored paddle it moves is no higher than the canvas;
    the reset actions [resetPositions], [resetMatch] and [scorePoint] when
    the canvas is at least [MIN_PADDLE_HEIGHT] high, and [updateCanvas]
    when the new canvas is. *)
Theorem paddle_bounds_after_update :
  forall (st : Store.t) (paddle : Paddle) (ball : Ball) (s : AI.Settings)
         (movement speed canvasWidth canvasHeight dpr y u u' : R)
         (side : string),
    let H := c_height (Store.canvas st) in
    let both (st' : Store.t) :=
      in_bounds (left (Store.paddles st')) (c_height (Store.canvas st'))
      /\ in_bounds (right (Store.paddles st')) (c_height (Store.canvas st')) in
    (p_height paddle <= canvasHeight ->
     in_bounds
       (Physics.updatePaddlePosition paddle movement speed canvasHeight)
       canvasHeight)
    /\ (p_height paddle <= canvasHeight -> b_vx ball <> 0 ->
        in_bounds
          (mkPaddle
             (AI.controllerUpdate s ball paddle canvasWidth canvasHeight u)
             (p_height paddle))
          canvasHeight)
    /\ (p_height (left (Store.paddles st)) <= H ->
        exists st', Store.updatePaddlePosition "left" y st = Some st'
                    /\ in_bounds (left (Store.paddles st')) H
                    /\ Store.canvas st' = Store.canvas st)
    /\ (p_height (right (Store.paddles st)) <= H ->
        exists st', Store.updatePaddlePosition "right" y st = Some st'
                    /\ in_bounds (right (Store.paddles st')) H
                    /\ Store.canvas st' = Store.canvas st)
    /\ (p_height (left (Store.paddles st)) <= H ->
        exists st', Engine.handleTouchMove y st = Some st'
                    /\ in_bounds (left (Store.paddles st')) H
                    /\ Store.canvas st' = Store.canvas st)
    /\ (GAME_CONFIG.MIN_PADDLE_HEIGHT <= H ->
        both (Store.resetPositions st)
        /\ both (Store.resetMatch u u' st)
        /\ both (Store.scorePoint side u st))
    /\ (GAME_CONFIG.MIN_PADDLE_HEIGHT <= canvasHeight ->
        both (Store.updateCanvas canvasWidth canvasHeight dpr st)).
Proof.
  intros st paddle ball s movement speed canvasWidth canvasHeight dpr y u u'
         side H both; subst H both.
  split; [intros Hp; now apply updatePaddlePosition_in_bounds|].
  split; [intros Hp Hv; now apply controllerUpdate_in_bounds|].
  split; [|split; [|split; [|split]]].
  - intros Hl. eexists; split; [reflexivity|]; split; [|reflexivity].
    unfold in_bounds; simpl. apply max0_min_range; lra.
  - intros Hr. eexists; split; [reflexivity|]; split; [|reflexivity].
    unfold in_bounds; simpl. apply max0_min_range; lra.
  - intros Hl. eexists; split; [reflexivity|]; split; [|reflexivity].
    unfold in_bounds; simpl. apply max0_min_range; lra.
  - intros Hc. split; [|split].
    + now apply resetPositions_in_bounds.
    + apply (resetPositions_in_bounds
               (Store.set_gameState (mkGameState false false 0 0) st)), Hc.
    + apply (resetPositions_in_bounds
               (Store.set_gameState
                  (Store.scorePointState side (Store.gameState st)) st)), Hc.
  - intros Hh.
    apply (resetPositions_in_bounds
             (Store.set_canvas (mkCanvas canvasWidth canvasHeight dpr) st)),
          Hh.
Qed.

Lemma paddle_bounds_after_update_witness :
  in_bounds (Physics.updatePaddlePosition
               (left (Store.paddles Store.initial)) 1 7 500) 500
  /\ in_bounds
       (mkPaddle
          (AI.controllerUpdate
             (AI.Own AI.normal) (Store.ball Store.initial)
             (right (Store.paddles Store.initial)) 800 500 0.5)
          (p_height (right (Store.paddles Store.initial))))
       500.
Proof.
  assert (Hh : Store.initialPaddleHeight = 90).
  { unfold Store.initialPaddleHeight, GAME_CONFIG.MIN_PADDLE_HEIGHT,
      GAME_CONFIG.DEFAULT_HEIGHT, GAME_CONFIG.PADDLE_HEIGHT_RATIO.
    rewrite Rmax_right; lra. }
  split.
  - apply (proj1 (paddle_bounds_after_update
                    Store.initial (left (Store.paddles Store.initial))
                    (Store.ball Store.initial) (AI.Own AI.normal)
                    1 7 800 500 1 250 0.5 0.5 "left")).
    simpl; rewrite Hh; lra.
  - apply (proj1 (proj2 (paddle_bounds_after_update
                    Store.initial (right (Store.paddles Store.initial))
                    (Store.ball Store.initial) (AI.Own AI.normal)
                    1 7 800 500 1 250 0.5 0.5 "left"))).
    + simpl; rewrite Hh; lra.
    + simpl; unfold GAME_CONFIG.BALL_SPEED_START; lra.
Defined.

(** ** ai.js: the prediction error *)

Lemma imperfection_zero (d : R) : 1 <= d -> AI.imperfection d = 0.
Proof.
  intros H; unfold AI.imperfection. rewrite Rmin_right by assumption. lra.
Qed.

(** C8.  With a difficulty multiplier of at least 1 the injected prediction
    error is zero, and the predictive movement and the paddle position the
    controller returns are the same for any two random samples. *)
Theorem predictive_ai_ignores_sample :
  forall (ball : Ball) (paddle : Paddle) (canvasWidth canvasHeight d u1 u2 : R),
    1 <= d ->
    (u1 - 0.5) * AI.imperfection d = 0
    /\ AI.calculatePredictiveAIMovement
         ball paddle canvasWidth canvasHeight d u1
       = AI.calculatePredictiveAIMovement
           ball paddle canvasWidth canvasHeight d u2
    /\ (forall settings : AI.Difficulty,
          AI.multiplier settings = d ->
          AI.update settings ball paddle canvasWidth canvasHeight u1
          = AI.update settings ball paddle canvasWidth canvasHeight u2).
Proof.
  intros ball paddle canvasWidth canvasHeight d u1 u2 Hd.
  pose proof (imperfection_zero d Hd) as Hz.
  assert (E : AI.calculatePredictiveAIMovement
                ball paddle canvasWidth canvasHeight d u1
              = AI.calculatePredictiveAIMovement
                  ball paddle canvasWidth canvasHeight d u2).
  { unfold AI.calculatePredictiveAIMovement.
    rewrite Hz, !Rmult_0_r. reflexivity. }
  split; [rewrite Hz; lra|]. split; [exact E|].
  intros settings Hs; unfold AI.update; rewrite Hs, E; reflexivity.
Qed.

Lemma predictive_ai_ignores_sample_witness :
  AI.update AI.hard (Store.ball Store.initial)
            (right (Store.paddles Store.initial)) 800 500 0.1
  = AI.update AI.hard (Store.ball Store.initial)
              (right (Store.paddles Store.initial)) 800 500 0.9.
Proof.
  refine (proj2 (proj2 (predictive_ai_ignores_sample
                          (Store.ball Store.initial)
                          (right (Store.paddles Store.initial))
                          800 500 1.3 0.1 0.9 _)) AI.hard eq_refl).
  lra.
Defined.

(** Every difficulty but [easy] has a multiplier of at least 1. *)
Lemma multipliers_at_least_one :
  1 <= AI.multiplier AI.normal /\ 1 <= AI.multiplier AI.hard
  /\ 1 <= AI.multiplier AI.impossible /\ AI.multiplier AI.easy < 1.
Proof. simpl; lra. Qed.

(** ** inputHandler.js: the movement accumulator *)

Lemma somePressed_true (activeKeys : list string) (action : string) :
  Input.somePressed activeKeys action = true
  <-> exists key, In key activeKeys /\ isKeyForAction key action = true.
Proof. unfold Input.somePressed; apply existsb_exists. Qed.

Lemma somePressed_false (activeKeys : list string) (action : string) :
  Input.somePressed activeKeys action = false
  <-> ~ exists key, In key activeKeys /\ isKeyForAction key action = true.
Proof.
  rewrite <- somePressed_true.
  destruct (Input.somePressed activeKeys action); split; intros; congruence.
Qed.

(** C9.  For every set of active keys the movement accumulator is [-1] when
    an "up" key and no "down" key is pressed, [0] when an "up" key and a
    "down" key are pressed together, and [0] when no movement key is
    pressed; the engine is told that same value. *)
Theorem calculateMovement_spec :
  forall activeKeys : list string,
    let up := exists key, In key activeKeys /\ isKeyForAction key "up" = true in
    let down :=
      exists key, In key activeKeys /\ isKeyForAction key "down" = true in
    (up /\ ~ down -> Input.calculateMovement activeKeys = (-1)%Z)
    /\ (up /\ down -> Input.calculateMovement activeKeys = 0%Z)
    /\ (~ up /\ ~ down -> Input.calculateMovement activeKeys = 0%Z)
    /\ (~ up /\ down -> Input.calculateMovement activeKeys = 1%Z)
    /\ Input.updateMovementState activeKeys
       = Input.Move (Input.calculateMovement activeKeys).
Proof.
  intros activeKeys up down; subst up down.
  unfold Input.calculateMovement, Input.updateMovementState.
  rewrite <- !somePressed_true.
  destruct (Input.somePressed activeKeys "up"),
           (Input.somePressed activeKeys "down"); simpl;
    repeat split; intros [? ?]; congruence.
Qed.

(** The handler driven by key events: "up" alone, then "up" with "down",
    then both released. *)
Example movement_scenario :
  let s0 : list string := [] in
  let '(s1, a1) := Input.handleKeyDown "ArrowUp" s0 in
  let '(s2, a2) := Input.handleKeyDown "s" s1 in
  let '(s3, a3) := Input.handleKeyUp "ArrowUp" s2 in
  let '(s4, a4) := Input.handleKeyUp "S" s3 in
  a1 = [Input.Move (-1)] /\ a2 = [Input.Move 0]
  /\ a3 = [Input.Move 1] /\ a4 = [Input.Move 0] /\ s4 = []
  /\ Input.calculateMovement s1 = (-1)%Z
  /\ Input.calculateMovement s2 = 0%Z
  /\ Input.calculateMovement s4 = 0%Z.
Proof. vm_compute. repeat split. Qed.

(** ** gameEngine.js: the paddle step of a tick *)

(** What a successful paddle check returns, and when. *)
Lemma checkPaddleCollision_Some
    (ball : Ball) (paddle : Paddle) (isLeft : bool) (canvasWidth : R)
    (c : Physics.PaddleHit) :
  Physics.checkPaddleCollision ball paddle isLeft canvasWidth = Some c ->
  Physics.isLeftPaddle c = isLeft
  /\ Physics.hitPosition c = (b_y ball - p_y paddle) / p_height paddle
  /\ p_y paddle <= b_y ball <= p_y paddle + p_height paddle
  /\ (if isLeft
      then Physics.newX c = 37.5 /\ b_vx ball < 0
           /\ 20 < b_x ball <= 37
      else Physics.newX c = canvasWidth - 37.5 /\ b_vx ball > 0
           /\ canvasWidth - 37 <= b_x ball < canvasWidth - 20).
Proof.
  unfold Physics.checkPaddleCollision, Physics.paddleX, Physics.ballRadius,
    GAME_CONFIG.PADDLE_MARGIN, GAME_CONFIG.PADDLE_WIDTH, GAME_CONFIG.BALL_SIZE.
  destruct (_ && _ && _) eqn:E; [|discriminate].
  intros [= <-]; simpl.
  apply andb_prop in E as [E Hv]; apply andb_prop in E as [Hx Hy].
  apply andb_prop in Hy as [Hy1 Hy2].
  apply leb_true in Hy1, Hy2.
  destruct isLeft; apply andb_prop in Hx as [Hx1 Hx2].
  - apply leb_true in Hx1; apply ltb_true in Hx2, Hv.
    repeat split; lra.
  - apply leb_true in Hx1; apply ltb_true in Hx2, Hv.
    repeat split; lra.
Qed.

Lemma checkPaddleCollision_left_hit
    (ball : Ball) (paddle : Paddle) (canvasWidth : R) :
  20 < b_x ball <= 37 ->
  p_y paddle <= b_y ball <= p_y paddle + p_height paddle ->
  b_vx ball < 0 ->
  exists c,
    Physics.checkPaddleCollision ball paddle true canvasWidth = Some c.
Proof.
  intros Hx Hy Hv.
  unfold Physics.checkPaddleCollision, Physics.paddleX, Physics.ballRadius,
    GAME_CONFIG.PADDLE_MARGIN, GAME_CONFIG.PADDLE_WIDTH, GAME_CONFIG.BALL_SIZE.
  replace (Js.leb (b_x ball - 10 / 2) (20 + 12)) with true
    by (symmetry; apply leb_true; lra).
  replace (Js.gtb (b_x ball) 20) with true
    by (symmetry; apply ltb_true; lra).
  replace (Js.geb (b_y ball) (p_y paddle)) with true
    by (symmetry; apply leb_true; lra).
  replace (Js.leb (b_y ball) (p_y paddle + p_height paddle)) with true
    by (symmetry; apply leb_true; lra).
  replace (Js.ltb (b_vx ball) 0) with true
    by (symmetry; apply ltb_true; lra).
  simpl; eexists; reflexivity.
Qed.

Lemma checkPaddleCollision_right_hit
    (ball : Ball) (paddle : Paddle) (canvasWidth : R) :
  canvasWidth - 37 <= b_x ball < canvasWidth - 20 ->
  p_y paddle <= b_y ball <= p_y paddle + p_height paddle ->
  b_vx ball > 0 ->
  exists c,
    Physics.checkPaddleCollision ball paddle false canvasWidth = Some c.
Proof.
  intros Hx Hy Hv.
  unfold Physics.checkPaddleCollision, Physics.paddleX, Physics.ballRadius,
    GAME_CONFIG.PADDLE_MARGIN, GAME_CONFIG.PADDLE_WIDTH, GAME_CONFIG.BALL_SIZE.
  replace (Js.geb (b_x ball + 10 / 2) (canvasWidth - 20 - 12)) with true
    by (symmetry; apply leb_true; lra).
  replace (Js.ltb (b_x ball) (canvasWidth - 20 - 12 + 12)) with true
    by (symmetry; apply ltb_true; lra).
  replace (Js.geb (b_y ball) (p_y paddle)) with true
    by (symmetry; apply leb_true; lra).
  replace (Js.leb (b_y ball) (p_y paddle + p_height paddle)) with true
    by (symmetry; apply leb_true; lra).
  replace (Js.gtb (b_vx ball) 0) with true
    by (symmetry; apply ltb_true; lra).
  simpl; eexists; reflexivity.
Qed.

(** On one ball state the two checks exclude each other: the left one needs
    the ball to move left, the right one needs it to move right. *)
Lemma paddle_checks_exclusive
    (ball : Ball) (pl pr : Paddle) (canvasWidth : R)
    (cl cr : Physics.PaddleHit) :
  Physics.checkPaddleCollision ball pl true canvasWidth = Some cl ->
  Physics.checkPaddleCollision ball pr false canvasWidth = Some cr ->
  False.
Proof.
  intros Hl Hr.
  apply checkPaddleCollision_Some in Hl as (_ & _ & _ & _ & Hvl & _).
  apply checkPaddleCollision_Some in Hr as (_ & _ & _ & _ & Hvr & _).
  lra.
Qed.

(** C4, as the claim states it, fails on a canvas 60 wide, where the two
    paddle bands overlap: the ball reflected off the left paddle is placed
    at [x = 37.5], inside the right paddle's band, now moves right, and the
    right check, made on that reflected ball, reflects it a second time. *)
Lemma double_reflection_on_narrow_canvas :
  let ball := mkBall 30 50 (-5) 0 in
  let ps := mkPaddles (mkPaddle 0 100) (mkPaddle 0 100) in
  b_x (SameState.resolvePaddles ball ps 60) = 37.5
  /\ b_x (Engine.resolvePaddle ball (left ps) true 60) = 37.5
  /\ b_x (Engine.resolvePaddles ball ps 60) = 22.5
  /\ Engine.resolvePaddles ball ps 60 <> SameState.resolvePaddles ball ps 60.
Proof.
  cbv zeta.
  set (ball := mkBall 30 50 (-5) 0).
  set (p := mkPaddle 0 100).
  destruct (checkPaddleCollision_left_hit ball p 60) as [cl Hl];
    [simpl; lra | simpl; lra | simpl; lra |].
  pose proof (checkPaddleCollision_Some _ _ _ _ _ Hl)
    as (Hil & Hhl & _ & Hxl & _).
  assert (Hh : Physics.hitPosition cl = 0.5) by (rewrite Hhl; simpl; lra).
  set (b1 := Engine.reflectOff ball cl).
  assert (Hb1x : b_x b1 = 37.5) by exact Hxl.
  assert (Hb1v : b_vx b1 > 0).
  { change (Physics.vx (Physics.calculateReflection
                          (Physics.hitPosition cl) (Physics.isLeftPaddle cl)
                          (-5) 0) > 0).
    rewrite Hh, Hil, calculateReflection_center; simpl.
    pose proof (reflectionSpeed_pos (-5) 0) as Hs.
    assert (0 < Physics.reflectionSpeed (-5) 0) by (apply Hs; left; lra).
    lra. }
  destruct (checkPaddleCollision_right_hit b1 p 60) as [cr Hr];
    [rewrite Hb1x; lra | simpl; lra | exact Hb1v |].
  pose proof (checkPaddleCollision_Some _ _ _ _ _ Hr)
    as (_ & _ & _ & Hxr & _).
  assert (E1 : Engine.resolvePaddle ball p true 60 = b1).
  { unfold Engine.resolvePaddle; rewrite Hl; reflexivity. }
  assert (E2 : Engine.resolvePaddles ball (mkPaddles p p) 60
               = Engine.reflectOff b1 cr).
  { unfold Engine.resolvePaddles; simpl.
    rewrite E1; unfold Engine.resolvePaddle; rewrite Hr; reflexivity. }
  assert (E3 : SameState.resolvePaddles ball (mkPaddles p p) 60 = b1).
  { unfold SameState.resolvePaddles; simpl; rewrite Hl; reflexivity. }
  simpl left. rewrite E1, E2, E3.
  assert (Hx2 : b_x (Engine.reflectOff b1 cr) = 22.5)
    by (change (Physics.newX cr = 22.5); lra).
  repeat split; try assumption.
  intros Heq; rewrite Heq in Hx2; lra.
Qed.

(** C4 (amended).  On a canvas wider than 74.5, and so on every canvas of at
    least [MIN_WIDTH], the paddle step of a tick gives the ball that
    checking both paddles on the post-wall ball state would give: no ball
    state passes both checks, and after a left reflection the right check,
    although made on the reflected ball, does not fire; at most one paddle
    reflection is applied.  The right check does read the ball the left
    reflection wrote. *)
Theorem resolvePaddles_same_state :
  forall (ball : Ball) (ps : Paddles) (canvasWidth : R),
    74.5 < canvasWidth ->
    Engine.resolvePaddles ball ps canvasWidth
      = SameState.resolvePaddles ball ps canvasWidth
    /\ (Engine.resolvePaddles ball ps canvasWidth = ball
        \/ (exists c,
              Physics.checkPaddleCollision ball (left ps) true canvasWidth
                = Some c
              /\ Engine.resolvePaddles ball ps canvasWidth
                   = Engine.reflectOff ball c)
        \/ (exists c,
              Physics.checkPaddleCollision ball (right ps) false canvasWidth
                = Some c
              /\ Engine.resolvePaddles ball ps canvasWidth
                   = Engine.reflectOff ball c)).
Proof.
  intros ball ps canvasWidth Hw.
  unfold Engine.resolvePaddles, SameState.resolvePaddles, Engine.resolvePaddle.
  destruct (Physics.checkPaddleCollision ball (left ps) true canvasWidth)
    as [cl|] eqn:Hl.
  - pose proof (checkPaddleCollision_Some _ _ _ _ _ Hl)
      as (_ & _ & _ & Hxl & _).
    destruct (Physics.checkPaddleCollision
                (Engine.reflectOff ball cl) (right ps) false canvasWidth)
      as [cr|] eqn:Hr.
    + apply checkPaddleCollision_Some in Hr as (_ & _ & _ & _ & _ & Hx).
      change (b_x (Engine.reflectOff ball cl)) with (Physics.newX cl) in Hx.
      lra.
    + split; [reflexivity|]. right; left. now exists cl.
  - destruct (Physics.checkPaddleCollision ball (right ps) false canvasWidth)
      as [cr|] eqn:Hr.
    + split; [reflexivity|]. right; right. now exists cr.
    + split; [reflexivity|]. now left.
Qed.

Lemma resolvePaddles_same_state_witness :
  Engine.resolvePaddles
    (mkBall 30 250 (-5) 1) (Store.paddles Store.initial) 800
  = SameState.resolvePaddles
      (mkBall 30 250 (-5) 1) (Store.paddles Store.initial) 800.
Proof.
  apply (resolvePaddles_same_state
           (mkBall 30 250 (-5) 1) (Store.paddles Store.initial) 800).
  lra.
Defined.

(** The tick runs the paddle step on the ball the wall step left, with the
    paddles as updated earlier in the tick. *)
Lemma updatePhysics_ball_pipeline
    (m : Z) (d : AI.Settings) (u_ai u_serve : R) (st : Store.t) :
  let W := c_width (Store.canvas st) in
  let H := c_height (Store.canvas st) in
  let newLeft :=
    if (m =? 0)%Z then left (Store.paddles st)
    else Physics.updatePaddlePosition
           (left (Store.paddles st)) (IZR m) GAME_CONFIG.PADDLE_SPEED H in
  let newRight :=
    mkPaddle
      (AI.controllerUpdate
         d (Store.ball st) (right (Store.paddles st)) W H u_ai)
             (p_height (right (Store.paddles st))) in
  let newBall :=
    Engine.resolvePaddles
      (Engine.resolveWall (Physics.updateBallPosition (Store.ball st)) H)
      (mkPaddles newLeft newRight) W in
  Physics.checkScoring newBall W = None ->
  Engine.updatePhysics m d u_ai u_serve st
  = Store.mk (Store.canvas st) (mkPaddles newLeft newRight) newBall
             (Store.gameState st).
Proof.
  intros W H newLeft newRight newBall Hs.
  unfold Engine.updatePhysics.
  destruct (m =? 0)%Z eqn:Em; simpl;
    fold W H; subst newLeft newRight;
    fold newBall; rewrite Hs; reflexivity.
Qed.

(** * Further properties of the code *)

(** ** physics.js *)

(** X1.  [clamp] returns the value itself inside [[min, max]] and the
    nearer end outside; when the interval is empty ([max < min]) it returns
    [min], whatever the value. *)
Theorem clamp_cases :
  forall value lo hi : R,
    (lo <= value <= hi -> Physics.clamp value lo hi = value)
    /\ (lo <= hi -> value <= lo -> Physics.clamp value lo hi = lo)
    /\ (lo <= hi -> hi <= value -> Physics.clamp value lo hi = hi)
    /\ (hi < lo -> Physics.clamp value lo hi = lo).
Proof.
  intros value lo hi; unfold Physics.clamp.
  repeat split; intros.
  - rewrite Rmin_right, Rmax_right; lra.
  - rewrite Rmin_right by lra. apply Rmax_left; lra.
  - rewrite Rmin_left by lra. apply Rmax_right; lra.
  - apply Rmax_left. pose proof (Rmin_l hi value). lra.
Qed.

(** X2.  A paddle that is within bounds keeps its height under
    [updatePaddlePosition], moves by no more than [|movement * speed|], and
    moves by exactly [movement * speed] when that stays within bounds. *)
Theorem updatePaddlePosition_step :
  forall (paddle : Paddle) (movement speed canvasHeight : R),
    in_bounds paddle canvasHeight ->
    let p' :=
      Physics.updatePaddlePosition paddle movement speed canvasHeight in
    p_height p' = p_height paddle
    /\ Rabs (p_y p' - p_y paddle) <= Rabs (movement * speed)
    /\ (0 <= p_y paddle + movement * speed
             <= canvasHeight - p_height paddle ->
        p_y p' = p_y paddle + movement * speed).
Proof.
  intros paddle movement speed canvasHeight [H0 H1] p'.
  unfold p', Physics.updatePaddlePosition, Physics.clamp; simpl.
  set (d := movement * speed). set (y := p_y paddle) in *.
  set (m := canvasHeight - p_height paddle) in *.
  split; [reflexivity|]. split.
  - unfold Rmax, Rmin.
    destruct (Rle_dec m (y + d)), (Rle_dec 0 _); unfold Rabs;
      repeat destruct (Rcase_abs _); lra.
  - intros [A B]. rewrite Rmin_right, Rmax_right; lra.
Qed.

Lemma updatePaddlePosition_step_witness :
  p_y (Physics.updatePaddlePosition (mkPaddle 100 90) (-1) 7 500) = 93.
Proof.
  destruct (updatePaddlePosition_step (mkPaddle 100 90) (-1) 7 500)
    as (_ & _ & H).
  - unfold in_bounds; simpl; lra.
  - rewrite H; simpl; lra.
Defined.

(** X3.  [checkScoring] reports ['right'] when the ball centre is more than
    a radius left of the canvas, ['left'] when it is more than a radius
    right of it, and nothing in between. *)
Theorem checkScoring_spec :
  forall (ball : Ball) (canvasWidth : R),
    let r := Physics.ballRadius in
    (b_x ball < - r ->
     Physics.checkScoring ball canvasWidth = Some "right"%string)
    /\ (- r <= b_x ball -> canvasWidth + r < b_x ball ->
        Physics.checkScoring ball canvasWidth = Some "left"%string)
    /\ (- r <= b_x ball <= canvasWidth + r ->
        Physics.checkScoring ball canvasWidth = None).
Proof.
  intros ball canvasWidth r; unfold Physics.checkScoring; fold r.
  repeat split; intros.
  - replace (Js.ltb (b_x ball) (- r)) with true
      by (symmetry; now apply ltb_true). reflexivity.
  - replace (Js.ltb (b_x ball) (- r)) with false
      by (symmetry; now apply ltb_false).
    replace (Js.gtb (b_x ball) (canvasWidth + r)) with true
      by (symmetry; now apply ltb_true). reflexivity.
  - replace (Js.ltb (b_x ball) (- r)) with false
      by (symmetry; apply ltb_false; lra).
    replace (Js.gtb (b_x ball) (canvasWidth + r)) with false
      by (symmetry; apply ltb_false; lra). reflexivity.
Qed.

(** X4.  On a paddle of positive height a detected hit has its hit
    position between 0 (top edge) and 1 (bottom edge). *)
Theorem hitPosition_range :
  forall (ball : Ball) (paddle : Paddle) (isLeft : bool) (canvasWidth : R)
         (c : Physics.PaddleHit),
    0 < p_height paddle ->
    Physics.checkPaddleCollision ball paddle isLeft canvasWidth = Some c ->
    0 <= Physics.hitPosition c <= 1.
Proof.
  intros ball paddle isLeft canvasWidth c Hh Hc.
  apply checkPaddleCollision_Some in Hc as (_ & -> & [Hy1 Hy2] & _).
  split.
  - apply Rmult_le_pos; [lra|]. left; now apply Rinv_0_lt_compat.
  - apply Rmult_le_reg_r with (p_height paddle); [assumption|].
    unfold Rdiv; rewrite Rmult_assoc, Rinv_l by lra. lra.
Qed.

Lemma hitPosition_range_witness :
  exists c,
    Physics.checkPaddleCollision
      (mkBall 30 120 (-5) 1) (mkPaddle 100 90) true 800 = Some c
    /\ 0 <= Physics.hitPosition c <= 1.
Proof.
  destruct (checkPaddleCollision_left_hit
              (mkBall 30 120 (-5) 1) (mkPaddle 100 90) 800) as [c Hc];
    [simpl; lra | simpl; lra | simpl; lra |].
  exists c; split; [exact Hc|].
  apply (hitPosition_range _ _ _ _ c) in Hc; [exact Hc | simpl; lra].
Defined.

(** X5.  The ball as a paddle hit leaves it does not hit that paddle again:
    the corrected position is half a pixel clear of the paddle's band,
    whatever the paddle's position and the canvas width. *)
Theorem no_second_hit_on_same_paddle :
  forall (ball : Ball) (paddle paddle' : Paddle) (isLeft : bool)
         (canvasWidth : R) (c : Physics.PaddleHit),
    Physics.checkPaddleCollision ball paddle isLeft canvasWidth = Some c ->
    Physics.checkPaddleCollision
      (Engine.reflectOff ball c) paddle' isLeft canvasWidth = None.
Proof.
  intros ball paddle paddle' isLeft canvasWidth c Hc.
  apply checkPaddleCollision_Some in Hc as (_ & _ & _ & Hx).
  destruct (Physics.checkPaddleCollision
              (Engine.reflectOff ball c) paddle' isLeft canvasWidth)
    as [c'|] eqn:E; [|reflexivity].
  apply checkPaddleCollision_Some in E as (_ & _ & _ & Hx').
  change (b_x (Engine.reflectOff ball c)) with (Physics.newX c) in Hx'.
  destruct isLeft; lra.
Qed.

Lemma no_second_hit_on_same_paddle_witness :
  exists c,
    Physics.checkPaddleCollision
      (mkBall 30 120 (-5) 1) (mkPaddle 100 90) true 800 = Some c
    /\ Physics.checkPaddleCollision
         (Engine.reflectOff (mkBall 30 120 (-5) 1) c)
         (mkPaddle 100 90) true 800 = None.
Proof.
  destruct (checkPaddleCollision_left_hit
              (mkBall 30 120 (-5) 1) (mkPaddle 100 90) 800) as [c Hc];
    [simpl; lra | simpl; lra | simpl; lra |].
  exists c; split; [exact Hc|].
  exact (no_second_hit_on_same_paddle _ _ (mkPaddle 100 90) _ _ c Hc).
Defined.

(** What the wall step does to the ball, by cases. *)
Lemma resolveWall_cases (ball : Ball) (canvasHeight : R) :
  let r := Physics.ballRadius in
  (b_y ball - r <= 0 /\ b_vy ball < 0
   /\ Engine.resolveWall ball canvasHeight
      = mkBall (b_x ball) r (b_vx ball) (- b_vy ball))
  \/ (b_y ball + r >= canvasHeight /\ b_vy ball > 0
      /\ Engine.resolveWall ball canvasHeight
         = mkBall (b_x ball) (canvasHeight - r) (b_vx ball) (- b_vy ball))
  \/ ((b_y ball - r > 0 \/ b_vy ball >= 0)
      /\ (b_y ball + r < canvasHeight \/ b_vy ball <= 0)
      /\ Engine.resolveWall ball canvasHeight = ball).
Proof.
  intros r; unfold Engine.resolveWall, Physics.checkWallCollision; fold r.
  destruct (Js.leb (b_y ball - r) 0 && Js.ltb (b_vy ball) 0) eqn:E1.
  { apply andb_prop in E1 as [A B].
    apply leb_true in A; apply ltb_true in B. left; auto. }
  destruct (Js.geb (b_y ball + r) canvasHeight && Js.gtb (b_vy ball) 0)
    eqn:E2.
  { apply andb_prop in E2 as [A B].
    apply leb_true in A; apply ltb_true in B. right; left.
    repeat split; lra. }
  right; right. split; [|split; [|reflexivity]].
  - apply andb_false_iff in E1 as [A|B].
    + apply leb_false in A; left; lra.
    + apply ltb_false in B; right; lra.
  - apply andb_false_iff in E2 as [A|B].
    + apply leb_false in A; left; lra.
    + apply ltb_false in B; right; lra.
Qed.

Lemma hypot_opp_r (x y : R) : Js.hypot x (- y) = Js.hypot x y.
Proof. unfold Js.hypot; f_equal; ring. Qed.

(** X6.  On a canvas higher than the ball, resolving the wall collision a
    second time changes nothing: the ball placed against a wall moves away
    from it and does not trigger the opposite wall. *)
Theorem resolveWall_idempotent :
  forall (ball : Ball) (canvasHeight : R),
    GAME_CONFIG.BALL_SIZE < canvasHeight ->
    Engine.resolveWall (Engine.resolveWall ball canvasHeight) canvasHeight
    = Engine.resolveWall ball canvasHeight.
Proof.
  intros ball canvasHeight HH.
  unfold GAME_CONFIG.BALL_SIZE in HH.
  assert (Hr : Physics.ballRadius = 5)
    by (unfold Physics.ballRadius, GAME_CONFIG.BALL_SIZE; lra).
  destruct (resolveWall_cases ball canvasHeight)
    as [(A & B & E) | [(A & B & E) | (A & B & E)]]; rewrite E;
    [| | exact E].
  - destruct (resolveWall_cases
                (mkBall (b_x ball) Physics.ballRadius (b_vx ball)
                        (- b_vy ball)) canvasHeight)
      as [(A' & B' & E') | [(A' & B' & E') | (_ & _ & E')]];
      rewrite ?Hr in *; simpl in *; try lra; exact E'.
  - destruct (resolveWall_cases
                (mkBall (b_x ball) (canvasHeight - Physics.ballRadius)
                        (b_vx ball) (- b_vy ball)) canvasHeight)
      as [(A' & B' & E') | [(A' & B' & E') | (_ & _ & E')]];
      rewrite ?Hr in *; simpl in *; try lra; exact E'.
Qed.

Lemma resolveWall_idempotent_witness :
  Engine.resolveWall (Engine.resolveWall (mkBall 100 3 4 (-2)) 500) 500
  = Engine.resolveWall (mkBall 100 3 4 (-2)) 500.
Proof.
  apply (resolveWall_idempotent (mkBall 100 3 4 (-2)) 500).
  unfold GAME_CONFIG.BALL_SIZE; lra.
Defined.

(** X7.  One step of the ball followed by the wall step keeps a ball that is
    inside the field (a radius away from the top and the bottom) inside the
    field, moves it horizontally by exactly its horizontal velocity, and
    changes neither that velocity nor the speed. *)
Theorem wall_step_keeps_ball_in_field :
  forall (ball : Ball) (canvasHeight : R),
    let r := Physics.ballRadius in
    2 * r <= canvasHeight ->
    r <= b_y ball <= canvasHeight - r ->
    let b' :=
      Engine.resolveWall (Physics.updateBallPosition ball) canvasHeight in
    r <= b_y b' <= canvasHeight - r
    /\ b_x b' = b_x ball + b_vx ball
    /\ b_vx b' = b_vx ball
    /\ Rabs (b_vy b') = Rabs (b_vy ball)
    /\ Js.hypot (b_vx b') (b_vy b') = Js.hypot (b_vx ball) (b_vy ball).
Proof.
  intros ball canvasHeight r HH Hy b'.
  destruct (resolveWall_cases (Physics.updateBallPosition ball) canvasHeight)
    as [(A & B & E) | [(A & B & E) | (A & B & E)]];
    fold r in A, B, E; unfold b'; rewrite E; simpl in *.
  - repeat split; try lra; [apply Rabs_Ropp | apply hypot_opp_r].
  - repeat split; try lra; [apply Rabs_Ropp | apply hypot_opp_r].
  - repeat split; lra.
Qed.

Lemma wall_step_keeps_ball_in_field_witness :
  let b' := Engine.resolveWall
              (Physics.updateBallPosition (mkBall 100 6 4 (-3))) 500 in
  Physics.ballRadius <= b_y b' <= 500 - Physics.ballRadius.
Proof.
  apply (wall_step_keeps_ball_in_field (mkBall 100 6 4 (-3)) 500);
    unfold Physics.ballRadius, GAME_CONFIG.BALL_SIZE; simpl; lra.
Defined.

(** The square of the vertical component after the minimum-speed
    correction is at least that of the raw component. *)
Lemma min_vertical_sqr (vy0 m : R) :
  0 < m ->
  let vy1 := if Js.ltb (Rabs vy0) m
             then Js.sign (Js.or_else vy0 1) * m else vy0 in
  vy0 * vy0 <= vy1 * vy1.
Proof.
  intros Hm vy1; subst vy1.
  destruct (Js.ltb (Rabs vy0) m) eqn:E; [|lra].
  apply ltb_true in E.
  assert (H0 : 0 <= Rabs vy0) by apply Rabs_pos.
  assert (H1 : vy0 * vy0 = Rabs vy0 * Rabs vy0).
  { unfold Rabs; destruct (Rcase_abs vy0); ring. }
  destruct (sign_or_else_unit vy0) as [-> | ->]; nra.
Qed.

(** X8.  A paddle hit leaves the ball at least as fast as the capped,
    increased speed [min(1.06 * speed, 13)]; a ball no faster than
    [BALL_SPEED_MAX] is never slowed down by a paddle. *)
Theorem reflection_never_slows :
  forall (h : R) (isLeft : bool) (cvx cvy : R),
    let v := Physics.calculateReflection h isLeft cvx cvy in
    Physics.reflectionSpeed cvx cvy
      <= Js.hypot (Physics.vx v) (Physics.vy v)
    /\ (Js.hypot cvx cvy <= GAME_CONFIG.BALL_SPEED_MAX ->
        Js.hypot cvx cvy <= Js.hypot (Physics.vx v) (Physics.vy v)).
Proof.
  intros h isLeft cvx cvy v.
  pose proof (reflectionSpeed_range cvx cvy) as [Hs0 Hs1].
  pose proof (cos2_sin2 (Physics.reflectionAngle h)) as Hcs.
  assert (Hmain : Physics.reflectionSpeed cvx cvy
                  <= Js.hypot (Physics.vx v) (Physics.vy v)).
  { unfold v, Physics.calculateReflection; simpl.
    set (s := Physics.reflectionSpeed cvx cvy) in *.
    set (c := cos (Physics.reflectionAngle h)) in *.
    set (sn := sin (Physics.reflectionAngle h)) in *.
    pose proof (min_vertical_sqr (sn * s) GAME_CONFIG.MIN_BALL_SPEED_Y) as Hv.
    cbv zeta in Hv.
    set (vy1 := if Js.ltb _ _ then _ else _) in *.
    assert (0 < GAME_CONFIG.MIN_BALL_SPEED_Y)
      by (unfold GAME_CONFIG.MIN_BALL_SPEED_Y; lra).
    specialize (Hv H).
    unfold Js.hypot.
    rewrite <- (sqrt_square s Hs0) at 1.
    apply sqrt_le_1; [nra | |].
    - assert (0 <= vy1 * vy1) by nra.
      assert (0 <= (c * s * (if isLeft then 1 else -1))
                   * (c * s * (if isLeft then 1 else -1))) by nra.
      lra.
    - assert (Hd : (c * s * (if isLeft then 1 else -1))
                   * (c * s * (if isLeft then 1 else -1))
                   = c * c * (s * s)) by (destruct isLeft; ring).
      rewrite Hd.
      replace (s * s) with ((c * c + sn * sn) * (s * s))
        by (rewrite Hcs; ring).
      nra. }
  split; [exact Hmain|].
  intros Hcap.
  eapply Rle_trans; [|exact Hmain].
  unfold Physics.reflectionSpeed, GAME_CONFIG.BALL_SPEED_INCREASE.
  pose proof (hypot_nonneg cvx cvy).
  apply Rmin_glb; lra.
Qed.

(** X9.  For a moving ball and a hit position in [[0,1]], the side of the
    paddle that is struck decides the vertical direction: above the centre
    the ball leaves upwards ([vy' < 0]), at or below the centre downwards
    ([vy' > 0]). *)
Theorem reflection_vertical_direction :
  forall (h : R) (isLeft : bool) (cvx cvy : R),
    0 <= h <= 1 ->
    cvx <> 0 \/ cvy <> 0 ->
    let v := Physics.calculateReflection h isLeft cvx cvy in
    (h < 0.5 -> Physics.vy v < 0) /\ (0.5 <= h -> Physics.vy v > 0).
Proof.
  intros h isLeft cvx cvy Hh Hv v.
  pose proof (reflectionSpeed_pos cvx cvy Hv) as Hs.
  pose proof (reflectionAngle_range h Hh) as Ha.
  pose proof PI_RGT_0 as Hpi.
  unfold GAME_CONFIG.MAX_REFLECTION_ANGLE in Ha.
  unfold v, Physics.calculateReflection; simpl.
  set (s := Physics.reflectionSpeed cvx cvy) in *.
  set (a := Physics.reflectionAngle h) in *.
  assert (Hm : 0 < GAME_CONFIG.MIN_BALL_SPEED_Y)
    by (unfold GAME_CONFIG.MIN_BALL_SPEED_Y; lra).
  split; intros Hside.
  - assert (Hneg : a < 0).
    { unfold a, Physics.reflectionAngle, GAME_CONFIG.MAX_REFLECTION_ANGLE.
      nra. }
    assert (Hsin : sin a < 0) by (apply sin_lt_0_var; lra).
    assert (Hraw : sin a * s < 0) by nra.
    destruct (Js.ltb _ _); [|exact Hraw].
    unfold Js.or_else; destruct (Req_dec_T (sin a * s) 0); [lra|].
    rewrite sign_neg by assumption. lra.
  - assert (Hnn : 0 <= a).
    { unfold a, Physics.reflectionAngle, GAME_CONFIG.MAX_REFLECTION_ANGLE.
      nra. }
    assert (Hsin : 0 <= sin a) by (apply sin_ge_0; lra).
    assert (Hraw : 0 <= sin a * s) by nra.
    destruct (Js.ltb (Rabs (sin a * s)) GAME_CONFIG.MIN_BALL_SPEED_Y) eqn:E.
    + unfold Js.or_else; destruct (Req_dec_T (sin a * s) 0).
      * rewrite sign_pos by lra. lra.
      * rewrite sign_pos by lra. lra.
    + apply ltb_false in E. rewrite Rabs_pos_eq in E by assumption. lra.
Qed.

Lemma reflection_vertical_direction_witness :
  Physics.vy (Physics.calculateReflection 0.25 true (-5) 1) < 0
  /\ Physics.vy (Physics.calculateReflection 0.75 true (-5) 1) > 0.
Proof.
  split.
  - apply (reflection_vertical_direction 0.25 true (-5) 1);
      [lra | left; lra | lra].
  - apply (reflection_vertical_direction 0.75 true (-5) 1);
      [lra | left; lra | lra].
Defined.

(** ** gameStore.js *)

(** X10.  Every serve puts the ball on the centre of the canvas with a
    vertical speed of at least [MIN_BALL_SPEED_Y_INITIAL], a horizontal
    speed of at most [BALL_SPEED_START] and a speed of at least
    [BALL_SPEED_START]; canvas, paddles and match state are untouched. *)
Theorem resetBall_serve :
  forall (toLeft : bool) (u : R) (st : Store.t),
    let st' := Store.resetBall toLeft u st in
    let b := Store.ball st' in
    b_x b = c_width (Store.canvas st) / 2
    /\ b_y b = c_height (Store.canvas st) / 2
    /\ Rabs (b_vy b) >= GAME_CONFIG.MIN_BALL_SPEED_Y_INITIAL
    /\ Rabs (b_vx b) <= GAME_CONFIG.BALL_SPEED_START
    /\ GAME_CONFIG.BALL_SPEED_START <= Js.hypot (b_vx b) (b_vy b)
    /\ Store.canvas st' = Store.canvas st
    /\ Store.paddles st' = Store.paddles st
    /\ Store.gameState st' = Store.gameState st.
Proof.
  intros toLeft u st st' b.
  assert (Hm : 0 < GAME_CONFIG.MIN_BALL_SPEED_Y_INITIAL)
    by (unfold GAME_CONFIG.MIN_BALL_SPEED_Y_INITIAL; lra).
  pose proof (COS_bound (Store.serveAngle toLeft u)) as Hc.
  pose proof (cos2_sin2 (Store.serveAngle toLeft u)) as Hcs.
  pose proof (min_vertical_sqr
                (sin (Store.serveAngle toLeft u) * GAME_CONFIG.BALL_SPEED_START)
                _ Hm) as Hsq.
  pose proof (min_vertical_abs
                (sin (Store.serveAngle toLeft u) * GAME_CONFIG.BALL_SPEED_START)
                _ Hm) as Hab.
  cbv zeta in Hsq.
  subst b st'; unfold Store.resetBall; simpl.
  set (c := cos (Store.serveAngle toLeft u)) in *.
  set (sn := sin (Store.serveAngle toLeft u)) in *.
  set (vy1 := if Js.ltb _ _ then _ else _) in *.
  unfold GAME_CONFIG.BALL_SPEED_START in *.
  repeat split; try assumption.
  - apply Rabs_le; destruct toLeft; lra.
  - apply Rle_trans with (Js.hypot (c * 5.2) (sn * 5.2)).
    + unfold Js.hypot.
      replace (c * 5.2 * (c * 5.2) + sn * 5.2 * (sn * 5.2))
        with ((c * c + sn * sn) * (5.2 * 5.2)) by ring.
      rewrite Hcs, Rmult_1_l, sqrt_square; lra.
    + assert (Hd : c * 5.2 * (if toLeft then -1 else 1)
                   * (c * 5.2 * (if toLeft then -1 else 1))
                   = c * 5.2 * (c * 5.2)) by (destruct toLeft; ring).
      unfold Js.hypot; apply sqrt_le_1; rewrite ?Hd; nra.
Qed.

Lemma togglePause_involutive (st : Store.t) :
  Store.togglePause (Store.togglePause st) = st.
Proof.
  destruct st as [c ps b [p o sl sr]].
  unfold Store.togglePause, Store.togglePauseState, Store.set_gameState; simpl.
  destruct o; simpl; [reflexivity|].
  now rewrite negb_involutive.
Qed.

Lemma frames_while_stopped (fs : list (R * R)) (e : Engine.t) :
  Derived.isGameRunning (Store.gameState (Engine.store e)) = false ->
  Session.run (map (fun f => Session.Frame (fst f) (snd f)) fs) e = e.
Proof.
  intros Hp; induction fs as [|f fs IH]; simpl; [reflexivity|].
  unfold Engine.gameLoop.
  unfold Derived.isGameRunning in Hp; rewrite Hp. exact IH.
Qed.

Lemma run_app (evs1 evs2 : list Session.Event) (e : Engine.t) :
  Session.run (evs1 ++ evs2) e = Session.run evs2 (Session.run evs1 e).
Proof.
  revert e; induction evs1 as [|ev evs1 IH]; intros e; simpl;
    [reflexivity | apply IH].
Qed.

(** X11.  Pausing a running match, letting any number of frames pass and
    resuming gives back the engine exactly as it was: nothing moves while
    the match is paused, and [togglePause] undoes itself. *)
Theorem pause_resume_round_trip :
  forall (e : Engine.t) (fs : list (R * R)) (u1 u2 u3 u4 : R),
    paused (Store.gameState (Engine.store e)) = false ->
    Session.run
      (Session.KeyAction Input.Pause u1 u2
       :: map (fun f => Session.Frame (fst f) (snd f)) fs
       ++ [Session.KeyAction Input.Pause u3 u4]) e
    = e
    /\ Store.togglePause (Store.togglePause (Engine.store e))
       = Engine.store e.
Proof.
  intros e fs u1 u2 u3 u4 Hp.
  split; [|apply togglePause_involutive].
  change (Session.run
            (map (fun f => Session.Frame (fst f) (snd f)) fs
             ++ [Session.KeyAction Input.Pause u3 u4])
            (Engine.handleKeyAction Input.Pause u1 u2 e) = e).
  rewrite run_app.
  destruct e as [[c ps b [p o sl sr]] m d]; simpl in Hp; subst p.
  destruct o.
  - rewrite frames_while_stopped by reflexivity. reflexivity.
  - rewrite frames_while_stopped by reflexivity. reflexivity.
Qed.

Lemma pause_resume_round_trip_witness :
  let e := Session.start 0.25 0.5 Store.initial in
  Session.run
    [Session.KeyAction Input.Pause 0 0; Session.Frame 0.5 0.5;
     Session.Frame 0.1 0.9; Session.KeyAction Input.Pause 0 0] e
  = e.
Proof.
  intros e.
  exact (proj1 (pause_resume_round_trip
                  e [(0.5, 0.5); (0.1, 0.9)] 0 0 0 0 eq_refl)).
Defined.








(** ** gameEngine.js: a running game *)

(** A tick either leaves the match state alone or scores one point. *)
Lemma gameState_updatePhysics
    (m : Z) (d : AI.Settings) (u_ai u_serve : R) (st : Store.t) :
  Store.gameState (Engine.updatePhysics m d u_ai u_serve st)
    = Store.gameState st
  \/ exists side,
      Store.gameState (Engine.updatePhysics m d u_ai u_serve st)
      = Store.scorePointState side (Store.gameState st).
Proof.
  unfold Engine.updatePhysics.
  destruct (Physics.checkScoring _ _) as [side|].
  - right; exists side. rewrite gameState_scorePoint.
    destruct (m =? 0)%Z; reflexivity.
  - left. destruct (m =? 0)%Z; reflexivity.
Qed.

Lemma engine_match_ok_score (side : string) (g : GameState) :
  engine_match_ok g -> over g = false ->
  engine_match_ok (Store.scorePointState side g).
Proof.
  unfold engine_match_ok, Store.scorePointState, GAME_CONFIG.WIN_SCORE.
  intros (Hl & Hr & Ho & Hb & Hp) Hov.
  assert (Hnl : scoreLeft g <> 11%Z)
    by (intros E; rewrite (proj2 Ho (or_introl E)) in Hov; discriminate).
  assert (Hnr : scoreRight g <> 11%Z)
    by (intros E; rewrite (proj2 Ho (or_intror E)) in Hov; discriminate).
  destruct (String.eqb side "left").
  - destruct ((11 <=? scoreLeft g + 1)%Z || (11 <=? scoreRight g)%Z)%bool
      eqn:E; simpl.
    + apply orb_prop in E as [E|E]; apply Z.leb_le in E;
        (split; [lia|]; split; [lia|]; split; [split; auto; lia|];
         split; [lia | auto]).
    + apply orb_false_elim in E as [A B]. apply Z.leb_gt in A, B.
      split; [lia|]. split; [lia|]. rewrite Hov.
      split; [split; [discriminate | lia]|]. split; [lia | discriminate].
  - destruct ((11 <=? scoreLeft g)%Z || (11 <=? scoreRight g + 1)%Z)%bool
      eqn:E; simpl.
    + apply orb_prop in E as [E|E]; apply Z.leb_le in E;
        (split; [lia|]; split; [lia|]; split; [split; auto; lia|];
         split; [lia | auto]).
    + apply orb_false_elim in E as [A B]. apply Z.leb_gt in A, B.
      split; [lia|]. split; [lia|]. rewrite Hov.
      split; [split; [discriminate | lia]|]. split; [lia | discriminate].
Qed.

Lemma engine_match_ok_toggle (g : GameState) :
  engine_match_ok g -> engine_match_ok (Store.togglePauseState g).
Proof.
  intros H; unfold Store.togglePauseState.
  destruct (over g) eqn:E; [exact H|].
  unfold engine_match_ok in *; simpl; rewrite E in *.
  destruct H as (Hl & Hr & Ho & Hb & Hp).
  repeat split; try apply Ho; try lia; try discriminate; auto.
Qed.

Lemma engine_match_ok_fresh : engine_match_ok (mkGameState false false 0 0).
Proof.
  unfold engine_match_ok, GAME_CONFIG.WIN_SCORE; simpl.
  repeat split; intros; try lia; try discriminate.
Qed.

Lemma engine_match_ok_step (ev : Session.Event) (e : Engine.t) :
  engine_match_ok (Store.gameState (Engine.store e)) ->
  engine_match_ok (Store.gameState (Engine.store (Session.step ev e))).
Proof.
  intros Hok; destruct ev as [u_ai u_serve | a u1 u2 | y | d | w h r]; simpl.
  - unfold Engine.gameLoop.
    destruct (paused _) eqn:Ep; simpl; [exact Hok|].
    destruct (over _) eqn:Eo; simpl; [exact Hok|].
    destruct (gameState_updatePhysics
                (Engine.playerMovement e) (Engine.ai e) u_ai u_serve
                (Engine.store e)) as [-> | [side ->]];
      [exact Hok | now apply engine_match_ok_score].
  - destruct a; simpl.
    + now apply engine_match_ok_toggle.
    + apply engine_match_ok_fresh.
    + exact Hok.
  - exact Hok.
  - exact Hok.
  - exact Hok.
Qed.

(** X13.  In a game started by the engine, whatever frames, key actions,
    touch moves, difficulty changes and resizes follow: no score passes
    [WIN_SCORE], the match is over exactly when one side has reached it,
    never both, and a match that is over is paused.  The derived [winner]
    store then names the side that holds [WIN_SCORE], and [isGameRunning]
    is the negation of [paused]. *)
Theorem session_match_invariant :
  forall (st0 : Store.t) (u_side u_angle : R) (evs : list Session.Event),
    let g := Store.gameState
               (Engine.store
                  (Session.run evs (Session.start u_side u_angle st0))) in
    engine_match_ok g
    /\ (Derived.winner g = Some "player"%string
        <-> scoreLeft g = GAME_CONFIG.WIN_SCORE)
    /\ (Derived.winner g = Some "ai"%string
        <-> scoreRight g = GAME_CONFIG.WIN_SCORE)
    /\ (Derived.winner g = None <-> over g = false)
    /\ Derived.isGameRunning g = negb (paused g).
Proof.
  intros st0 u_side u_angle evs g.
  assert (Hok : engine_match_ok g).
  { subst g.
    assert (G : forall e,
               engine_match_ok (Store.gameState (Engine.store e)) ->
               engine_match_ok
                 (Store.gameState (Engine.store (Session.run evs e)))).
    { induction evs as [|ev evs IH]; intros e He; simpl; [exact He|].
      apply IH, engine_match_ok_step, He. }
    apply G, engine_match_ok_fresh. }
  split; [exact Hok|].
  destruct Hok as (Hl & Hr & Ho & Hb & Hp).
  unfold GAME_CONFIG.WIN_SCORE in *.
  unfold Derived.winner, Derived.isGameRunning.
  destruct (over g) eqn:Eo; simpl.
  - rewrite (Hp eq_refl); simpl.
    destruct (proj1 Ho eq_refl) as [E|E].
    + replace (scoreLeft g >? scoreRight g)%Z with true
        by (symmetry; apply Z.gtb_lt; lia).
      repeat split; intros; try congruence; try lia.
    + replace (scoreLeft g >? scoreRight g)%Z with false
        by (symmetry; rewrite Z.gtb_ltb; apply Z.ltb_ge; lia).
      repeat split; intros; try congruence; try lia.
  - rewrite andb_true_r.
    repeat split; intros; try discriminate; try reflexivity.
    + assert (false = true) by (apply Ho; now left).
      discriminate.
    + assert (false = true) by (apply Ho; now right).
      discriminate.
Qed.

Lemma b_vx_resolveWall (ball : Ball) (canvasHeight : R) :
  b_vx (Engine.resolveWall ball canvasHeight) = b_vx ball.
Proof.
  unfold Engine.resolveWall.
  destruct (Physics.checkWallCollision _ _); reflexivity.
Qed.

Lemma b_y_resolvePaddle
    (ball : Ball) (paddle : Paddle) (isLeft : bool) (canvasWidth : R) :
  b_y (Engine.resolvePaddle ball paddle isLeft canvasWidth) = b_y ball.
Proof.
  unfold Engine.resolvePaddle.
  destruct (Physics.checkPaddleCollision _ _ _ _); reflexivity.
Qed.

Lemma b_y_resolvePaddles (ball : Ball) (ps : Paddles) (canvasWidth : R) :
  b_y (Engine.resolvePaddles ball ps canvasWidth) = b_y ball.
Proof.
  unfold Engine.resolvePaddles. now rewrite !b_y_resolvePaddle.
Qed.

Lemma wall_step_in_field (ball : Ball) (canvasHeight : R) :
  2 * Physics.ballRadius <= canvasHeight ->
  Physics.ballRadius <= b_y ball <= canvasHeight - Physics.ballRadius ->
  Physics.ballRadius
    <= b_y (Engine.resolveWall (Physics.updateBallPosition ball) canvasHeight)
    <= canvasHeight - Physics.ballRadius.
Proof.
  intros HH Hy.
  destruct (resolveWall_cases (Physics.updateBallPosition ball) canvasHeight)
    as [(A & B & E) | [(A & B & E) | (A & B & E)]];
    rewrite E; simpl in *; lra.
Qed.

Lemma field_ok_reset (toLeft : bool) (u : R) (st : Store.t) :
  GAME_CONFIG.MIN_PADDLE_HEIGHT <= c_height (Store.canvas st) ->
  field_ok (Store.resetBall toLeft u (Store.resetPositions st)).
Proof.
  intros Hc.
  pose proof (resetPositions_in_bounds st Hc) as [Hl Hr].
  unfold field_ok. split; [exact Hc|]. split; [exact Hl|].
  split; [exact Hr|].
  simpl. unfold Physics.ballRadius, GAME_CONFIG.BALL_SIZE.
  unfold GAME_CONFIG.MIN_PADDLE_HEIGHT in Hc. lra.
Qed.

Lemma field_ok_updatePhysics
    (m : Z) (d : AI.Settings) (u_ai u_serve : R) (st : Store.t) :
  b_vx (Store.ball st) <> 0 ->
  field_ok st -> field_ok (Engine.updatePhysics m d u_ai u_serve st).
Proof.
  intros Hv (Hc & Hl & Hr & Hb).
  assert (Hrad : 2 * Physics.ballRadius <= c_height (Store.canvas st)).
  { unfold Physics.ballRadius, GAME_CONFIG.BALL_SIZE.
    unfold GAME_CONFIG.MIN_PADDLE_HEIGHT in Hc. lra. }
  assert (Hhl : p_height (left (Store.paddles st))
                <= c_height (Store.canvas st)) by (destruct Hl; lra).
  assert (Hhr : p_height (right (Store.paddles st))
                <= c_height (Store.canvas st)) by (destruct Hr; lra).
  unfold Engine.updatePhysics.
  destruct (Physics.checkScoring _ _) as [side|].
  - unfold Store.scorePoint. apply field_ok_reset.
    destruct (m =? 0)%Z; exact Hc.
  - unfold field_ok.
    split; [destruct (m =? 0)%Z; exact Hc|].
    split; [|split].
    + destruct (m =? 0)%Z; simpl; [exact Hl|].
      now apply updatePaddlePosition_in_bounds.
    + pose proof (controllerUpdate_in_bounds
                    d (Store.ball st) (right (Store.paddles st))
                    (c_width (Store.canvas st)) (c_height (Store.canvas st))
                    u_ai Hhr Hv) as Ha.
      destruct (m =? 0)%Z; exact Ha.
    + pose proof (wall_step_in_field (Store.ball st) _ Hrad Hb) as Hw.
      destruct (m =? 0)%Z; simpl; rewrite b_y_resolvePaddles; exact Hw.
Qed.

(** A paddle of positive height reflects a moving ball with a horizontal
    velocity other than zero. *)
Lemma b_vx_resolvePaddle_nonzero
    (ball : Ball) (paddle : Paddle) (isLeft : bool) (canvasWidth : R) :
  0 < p_height paddle -> b_vx ball <> 0 ->
  b_vx (Engine.resolvePaddle ball paddle isLeft canvasWidth) <> 0.
Proof.
  intros Hh Hv; unfold Engine.resolvePaddle.
  destruct (Physics.checkPaddleCollision ball paddle isLeft canvasWidth)
    as [c|] eqn:Hc; [|exact Hv].
  apply checkPaddleCollision_Some in Hc as (_ & Hp & [Hy1 Hy2] & _).
  assert (Hunit : 0 <= Physics.hitPosition c <= 1).
  { rewrite Hp; split.
    - apply Rmult_le_pos; [lra|]. left; now apply Rinv_0_lt_compat.
    - apply Rmult_le_reg_r with (p_height paddle); [assumption|].
      unfold Rdiv; rewrite Rmult_assoc, Rinv_l by lra. lra. }
  pose proof (cos_reflectionAngle_pos _ Hunit) as Hcos.
  pose proof (reflectionSpeed_pos (b_vx ball) (b_vy ball) (or_introl Hv))
    as Hs.
  unfold Engine.reflectOff, Physics.calculateReflection; simpl.
  assert (0 < cos (Physics.reflectionAngle (Physics.hitPosition c))
              * Physics.reflectionSpeed (b_vx ball) (b_vy ball))
    by (apply Rmult_lt_0_compat; assumption).
  destruct (Physics.isLeftPaddle c); lra.
Qed.

(** A serve whose angle is drawn from [Math.random()] has a horizontal
    velocity. *)
Lemma resetBall_vx_nonzero (toLeft : bool) (u : R) (st : Store.t) :
  0 <= u < 1 -> b_vx (Store.ball (Store.resetBall toLeft u st)) <> 0.
Proof.
  intros Hu; rewrite resetBall_vx.
  pose proof (cos_serve_band_pos u Hu) as Hc.
  unfold Store.serveAngle, GAME_CONFIG.BALL_SPEED_START.
  destruct toLeft.
  - rewrite neg_cos. nra.
  - rewrite Rplus_0_r. nra.
Qed.

Lemma in_play_reset (toLeft : bool) (u : R) (st : Store.t) :
  GAME_CONFIG.MIN_PADDLE_HEIGHT <= c_height (Store.canvas st) ->
  0 <= u < 1 ->
  in_play (Store.resetBall toLeft u (Store.resetPositions st)).
Proof.
  intros Hc Hu. split; [now apply field_ok_reset|].
  assert (Hh : 0 < Rmax GAME_CONFIG.MIN_PADDLE_HEIGHT
                        (c_height (Store.canvas st)
                         * GAME_CONFIG.PADDLE_HEIGHT_RATIO)).
  { eapply Rlt_le_trans; [|apply Rmax_l].
    unfold GAME_CONFIG.MIN_PADDLE_HEIGHT; lra. }
  split; [exact Hh|]. split; [exact Hh|].
  now apply resetBall_vx_nonzero.
Qed.

Lemma in_play_updatePhysics
    (m : Z) (d : AI.Settings) (u_ai u_serve : R) (st : Store.t) :
  0 <= u_serve < 1 ->
  in_play st -> in_play (Engine.updatePhysics m d u_ai u_serve st).
Proof.
  intros Hu (Hf & Hl & Hr & Hv).
  split; [now apply field_ok_updatePhysics|].
  unfold Engine.updatePhysics.
  destruct (Physics.checkScoring _ _) as [side|].
  - unfold Store.scorePoint.
    apply in_play_reset; [|exact Hu].
    destruct Hf as [Hc _]. destruct (m =? 0)%Z; exact Hc.
  - assert (Hl' : 0 < p_height
                        (if (m =? 0)%Z then left (Store.paddles st)
                         else Physics.updatePaddlePosition
                                (left (Store.paddles st)) (IZR m)
                                GAME_CONFIG.PADDLE_SPEED
                                (c_height (Store.canvas st))))
      by (destruct (m =? 0)%Z; exact Hl).
    split; [destruct (m =? 0)%Z; exact Hl|].
    split; [destruct (m =? 0)%Z; exact Hr|].
    unfold Engine.resolvePaddles.
    destruct (m =? 0)%Z; simpl;
      (apply b_vx_resolvePaddle_nonzero; [exact Hr|];
       apply b_vx_resolvePaddle_nonzero; [assumption|];
       rewrite b_vx_resolveWall; exact Hv).
Qed.

Lemma in_play_step (ev : Session.Event) (e : Engine.t) :
  plain_event ev ->
  in_play (Engine.store e) ->
  in_play (Engine.store (Session.step ev e)).
Proof.
  intros Hev Hok; destruct ev as [u_ai u_serve | a u1 u2 | y | d | w h r];
    unfold Session.step.
  - unfold Engine.gameLoop.
    destruct (negb _ && negb _); cbn [Engine.store];
      [now apply in_play_updatePhysics | exact Hok].
  - destruct a; unfold Engine.handleKeyAction; cbn [Engine.store];
      try exact Hok.
    unfold Store.resetMatch.
    apply (in_play_reset _ _
             (Store.set_gameState (mkGameState false false 0 0)
                                  (Engine.store e)));
      [apply Hok | exact Hev].
  - destruct Hok as ((Hc & Hl & Hr & Hb) & Hhl & Hhr & Hv).
    simpl. unfold in_play, field_ok; simpl.
    split; [|split; [exact Hhl | split; [exact Hhr | exact Hv]]].
    split; [exact Hc|]. split; [|split; [exact Hr | exact Hb]].
    unfold in_bounds; simpl. apply max0_min_range.
    destruct Hl; lra.
  - exact Hok.
  - contradiction.
Qed.

(** X14.  Take a field on which play can go on: a canvas at least
    [MIN_PADDLE_HEIGHT] high, both paddles of positive height and within
    bounds, the ball a radius away from top and bottom and with a
    horizontal velocity other than zero.  Every sequence of frames, key
    actions, touch moves and difficulty changes keeps it so, as long as the
    canvas is not resized in between and every serve draws its angle from
    [Math.random()]; a game the engine starts on such a canvas begins with
    the field in that state. *)
Theorem field_invariant :
  forall (evs : list Session.Event) (e : Engine.t),
    Forall plain_event evs ->
    in_play (Engine.store e) ->
    in_play (Engine.store (Session.run evs e))
    /\ (forall u_side u_angle,
          0 <= u_angle < 1 ->
          in_play (Engine.store
                     (Session.run evs
                        (Session.start u_side u_angle (Engine.store e))))).
Proof.
  assert (G : forall evs e,
             Forall plain_event evs ->
             in_play (Engine.store e) ->
             in_play (Engine.store (Session.run evs e))).
  { induction evs as [|ev evs IH]; intros e Hevs Hok; simpl; [exact Hok|].
    inversion Hevs as [|ev' evs' Hev Hrest]; subst.
    apply IH; [exact Hrest|]. now apply in_play_step. }
  intros evs e Hevs Hok; split; [now apply G|].
  intros u_side u_angle Hu. apply G; [exact Hevs|].
  unfold Session.start, Store.resetMatch; cbn [Engine.store].
  apply (in_play_reset _ _
           (Store.set_gameState (mkGameState false false 0 0)
                                (Engine.store e)));
    [apply Hok | exact Hu].
Qed.

Lemma in_play_initial : in_play Store.initial.
Proof.
  assert (Hh : Store.initialPaddleHeight = 90).
  { unfold Store.initialPaddleHeight, GAME_CONFIG.MIN_PADDLE_HEIGHT,
      GAME_CONFIG.DEFAULT_HEIGHT, GAME_CONFIG.PADDLE_HEIGHT_RATIO.
    rewrite Rmax_right; lra. }
  unfold in_play, field_ok, in_bounds; simpl.
  unfold Store.initialPaddleY; rewrite Hh.
  unfold GAME_CONFIG.DEFAULT_HEIGHT, GAME_CONFIG.MIN_PADDLE_HEIGHT,
    Physics.ballRadius, GAME_CONFIG.BALL_SIZE, GAME_CONFIG.BALL_SPEED_START.
  repeat split; lra.
Qed.

Lemma plain_events_example :
  Forall plain_event
    [Session.KeyAction (Input.Move 1) 0 0; Session.Frame 0.5 0.5;
     Session.TouchMove 700; Session.Frame 0.2 0.8].
Proof. repeat constructor; simpl; lra. Qed.

Lemma field_invariant_witness :
  in_play
    (Engine.store
       (Session.run
          [Session.KeyAction (Input.Move 1) 0 0; Session.Frame 0.5 0.5;
           Session.TouchMove 700; Session.Frame 0.2 0.8]
          (Engine.mk Store.initial 0 (AI.Own AI.normal)))).
Proof.
  exact (proj1 (field_invariant
                  [Session.KeyAction (Input.Move 1) 0 0;
                   Session.Frame 0.5 0.5;
                   Session.TouchMove 700; Session.Frame 0.2 0.8]
                  (Engine.mk Store.initial 0 (AI.Own AI.normal))
                  plain_events_example in_play_initial)).
Defined.

(** ** ai.js *)

Lemma sign_cases (x : R) :
  (0 < x /\ Js.sign x = 1) \/ (x < 0 /\ Js.sign x = -1)
  \/ (x = 0 /\ Js.sign x = 0).
Proof.
  unfold Js.sign.
  destruct (Rlt_dec 0 x); [left; split; [assumption | reflexivity]|].
  destruct (Rlt_dec x 0); [right; left; split; [assumption | reflexivity]|].
  right; right; split; [lra | reflexivity].
Qed.

Lemma Rabs_le_iff (x a : R) : Rabs x <= a <-> - a <= x <= a.
Proof.
  split; [|apply Rabs_le].
  unfold Rabs; destruct (Rcase_abs x); lra.
Qed.

Lemma Rabs_gt_cases (x a : R) : a < Rabs x -> x < - a \/ a < x.
Proof. unfold Rabs; destruct (Rcase_abs x); lra. Qed.

(** Split on the comparisons the controllers branch on. *)
Ltac ai_branches :=
  repeat match goal with
         | |- context [Js.ltb ?a ?b] =>
             let F := fresh in destruct (Js.ltb a b) eqn:F;
             [apply ltb_true in F | apply ltb_false in F]
         | |- context [Js.gtb ?a ?b] =>
             let F := fresh in destruct (Js.gtb a b) eqn:F;
             [apply ltb_true in F | apply ltb_false in F]
         | |- context [Js.leb ?a ?b] =>
             let F := fresh in destruct (Js.leb a b) eqn:F;
             [apply leb_true in F | apply leb_false in F]
         end.

(** The reactive controller never asks for more than [AI_SPEED]. *)
Lemma calculateAIMovement_abs
    (ball : Ball) (paddle : Paddle) (canvasHeight : R) :
  in_bounds paddle canvasHeight ->
  Rabs (AI.calculateAIMovement ball paddle canvasHeight)
  <= GAME_CONFIG.AI_SPEED.
Proof.
  intros [H0 H1].
  unfold AI.calculateAIMovement, GAME_CONFIG.AI_SPEED.
  set (distance := b_y ball - p_height paddle / 2 - p_y paddle).
  destruct (sign_cases distance) as [[Hd ->] | [[Hd ->] | [Hd ->]]];
    ai_branches; apply Rabs_le; lra.
Qed.

(** X15.  On a paddle that is within bounds the reactive controller
    [calculateAIMovement] moves by at most [AI_SPEED], never away from the
    ball, never out of bounds, and stays put once the paddle centre is
    within [AI_SPEED] of the ball. *)
Theorem calculateAIMovement_spec :
  forall (ball : Ball) (paddle : Paddle) (canvasHeight : R),
    in_bounds paddle canvasHeight ->
    let m := AI.calculateAIMovement ball paddle canvasHeight in
    let distance := b_y ball - p_height paddle / 2 - p_y paddle in
    Rabs m <= GAME_CONFIG.AI_SPEED
    /\ in_bounds (mkPaddle (p_y paddle + m) (p_height paddle)) canvasHeight
    /\ 0 <= m * distance
    /\ (Rabs distance <= GAME_CONFIG.AI_SPEED -> m = 0).
Proof.
  intros ball paddle canvasHeight Hb m distance.
  split; [now apply calculateAIMovement_abs|].
  destruct Hb as [H0 H1]; subst m.
  unfold AI.calculateAIMovement, in_bounds; simpl.
  fold distance. unfold GAME_CONFIG.AI_SPEED.
  destruct (Js.leb (Rabs distance) 5.5) eqn:E.
  { repeat split; lra. }
  apply leb_false in E.
  split; [|split; [|lra]].
  - destruct (sign_cases distance) as [[Hd ->] | [[Hd ->] | [Hd ->]]];
      ai_branches; lra.
  - apply Rabs_gt_cases in E.
    destruct (sign_cases distance) as [[Hd ->] | [[Hd ->] | [Hd ->]]];
      ai_branches; nra.
Qed.

Lemma calculateAIMovement_spec_witness :
  Rabs (AI.calculateAIMovement (mkBall 700 400 5 1) (mkPaddle 2 90) 500)
  <= GAME_CONFIG.AI_SPEED.
Proof.
  apply (calculateAIMovement_spec (mkBall 700 400 5 1) (mkPaddle 2 90) 500).
  unfold in_bounds; simpl; lra.
Defined.

Lemma Rabs_sign_mul (x a : R) : 0 <= a -> Rabs (Js.sign x * a) <= a.
Proof.
  intros Ha; apply Rabs_le.
  destruct (sign_cases x) as [[_ ->] | [[_ ->] | [_ ->]]]; lra.
Qed.

(** X16.  For a ball with a horizontal velocity other than zero, a paddle
    within bounds and a controller whose difficulty multiplier is not
    negative, the predictive controller asks for a movement of at most
    [AI_SPEED * max(1, multiplier)], and the controller's [update] moves the
    paddle by no more than that in one tick; the multiplier is that of the
    settings, or the default 1.0 where the settings have none. *)
Theorem predictive_ai_speed_limit :
  forall (ball : Ball) (paddle : Paddle) (canvasWidth canvasHeight u : R)
         (s : AI.Settings),
    b_vx ball <> 0 ->
    in_bounds paddle canvasHeight ->
    0 <= AI.difficultyArgument s ->
    let limit := GAME_CONFIG.AI_SPEED * Rmax 1 (AI.difficultyArgument s) in
    Rabs (AI.calculatePredictiveAIMovement
            ball paddle canvasWidth canvasHeight (AI.difficultyArgument s) u)
      <= limit
    /\ Rabs (AI.controllerUpdate s ball paddle canvasWidth canvasHeight u
             - p_y paddle) <= limit.
Proof.
  intros ball paddle canvasWidth canvasHeight u s _ Hb Hd limit.
  set (d := AI.difficultyArgument s) in *.
  assert (Hmax1 : 1 <= Rmax 1 d) by apply Rmax_l.
  assert (Hmaxd : d <= Rmax 1 d) by apply Rmax_r.
  assert (Hm : Rabs (AI.calculatePredictiveAIMovement
                       ball paddle canvasWidth canvasHeight d u) <= limit).
  { unfold limit, AI.calculatePredictiveAIMovement, GAME_CONFIG.AI_SPEED.
    destruct (Js.ltb (b_vx ball) 0).
    - destruct (Js.leb _ _); [rewrite Rabs_R0; nra|].
      rewrite Rmult_assoc.
      eapply Rle_trans; [apply Rabs_sign_mul; lra | nra].
    - destruct (Js.leb _ 0).
      + pose proof (calculateAIMovement_abs ball paddle canvasHeight Hb)
          as Hr.
        unfold GAME_CONFIG.AI_SPEED in Hr. nra.
      + destruct (Js.leb _ _); [rewrite Rabs_R0; nra|].
        eapply Rle_trans; [apply Rabs_sign_mul; nra | nra]. }
  split; [exact Hm|].
  unfold AI.controllerUpdate; fold d.
  set (m := AI.calculatePredictiveAIMovement _ _ _ _ _ _) in *.
  assert (0 <= limit) by (unfold limit, GAME_CONFIG.AI_SPEED; nra).
  apply Rabs_le_iff in Hm. destruct Hb as [Hb0 Hb1].
  apply Rabs_le.
  unfold Rmin; destruct (Rle_dec _ _);
    unfold Rmax; destruct (Rle_dec _ _); lra.
Qed.

Lemma predictive_ai_speed_limit_witness :
  Rabs (AI.controllerUpdate
          (AI.Own AI.impossible) (mkBall 400 250 5 1) (mkPaddle 205 90)
          800 500 0.5 - 205)
  <= GAME_CONFIG.AI_SPEED * Rmax 1 1.8.
Proof.
  apply (predictive_ai_speed_limit
           (mkBall 400 250 5 1) (mkPaddle 205 90) 800 500 0.5
           (AI.Own AI.impossible)).
  - simpl; lra.
  - unfold in_bounds; simpl; lra.
  - simpl; lra.
Defined.

(** X17.  While the ball moves away ([vx < 0]) the predictive controller
    only recentres the paddle, whatever the difficulty and the random
    sample: it stays put within [AI_SPEED] of the centre position and
    otherwise comes exactly half an [AI_SPEED] closer to it. *)
Theorem predictive_ai_retreat :
  forall (ball : Ball) (paddle : Paddle) (canvasWidth canvasHeight d u : R),
    b_vx ball < 0 ->
    let centerY := (canvasHeight - p_height paddle) / 2 in
    let m := AI.calculatePredictiveAIMovement
               ball paddle canvasWidth canvasHeight d u in
    (Rabs (centerY - p_y paddle) <= GAME_CONFIG.AI_SPEED -> m = 0)
    /\ (GAME_CONFIG.AI_SPEED < Rabs (centerY - p_y paddle) ->
        Rabs (centerY - (p_y paddle + m))
        = Rabs (centerY - p_y paddle) - GAME_CONFIG.AI_SPEED / 2).
Proof.
  intros ball paddle canvasWidth canvasHeight d u Hv centerY m.
  subst m; unfold AI.calculatePredictiveAIMovement.
  replace (Js.ltb (b_vx ball) 0) with true
    by (symmetry; now apply ltb_true).
  fold centerY. set (dist := centerY - p_y paddle).
  unfold GAME_CONFIG.AI_SPEED.
  split; intros H.
  - replace (Js.leb (Rabs dist) 5.5) with true
      by (symmetry; now apply leb_true). reflexivity.
  - replace (Js.leb (Rabs dist) 5.5) with false
      by (symmetry; now apply leb_false).
    replace (centerY - (p_y paddle + Js.sign dist * 5.5 * 0.5))
      with (dist - Js.sign dist * 5.5 * 0.5) by (unfold dist; ring).
    destruct (Rabs_gt_cases _ _ H) as [Hn|Hp].
    + rewrite sign_neg by lra.
      rewrite (Rabs_left dist) by lra.
      rewrite Rabs_left by lra. lra.
    + rewrite sign_pos by lra.
      rewrite (Rabs_right dist) by lra.
      rewrite Rabs_right by lra. lra.
Qed.

Lemma predictive_ai_retreat_witness :
  AI.calculatePredictiveAIMovement
    (mkBall 400 250 (-5) 1) (mkPaddle 203 90) 800 500 0.6 0.3 = 0.
Proof.
  apply (predictive_ai_retreat
           (mkBall 400 250 (-5) 1) (mkPaddle 203 90) 800 500 0.6 0.3).
  - simpl; lra.
  - simpl. unfold GAME_CONFIG.AI_SPEED.
    apply Rabs_le; lra.
Defined.


(** ** gameConfig.js and inputHandler.js: keys *)

Lemma lower_ascii_idempotent (c : ascii) :
  lower_ascii (lower_ascii c) = lower_ascii c.
Proof.
  destruct c as [[] [] [] [] [] [] [] []]; vm_compute; reflexivity.
Qed.

Lemma toLowerCase_idempotent (s : string) :
  toLowerCase (toLowerCase s) = toLowerCase s.
Proof.
  induction s as [|c s IH]; simpl; [reflexivity|].
  now rewrite lower_ascii_idempotent, IH.
Qed.

Lemma isKeyForAction_lower (key action : string) :
  isKeyForAction (toLowerCase key) action = isKeyForAction key action.
Proof. unfold isKeyForAction. now rewrite toLowerCase_idempotent. Qed.

(** X19.  Key handling is case-insensitive: lower-casing is idempotent, and
    [isKeyForAction], [handleKeyDown] and [handleKeyUp] treat a key and its
    lower-case form alike. *)
Theorem keys_case_insensitive :
  forall (key action : string) (activeKeys : list string),
    toLowerCase (toLowerCase key) = toLowerCase key
    /\ isKeyForAction (toLowerCase key) action = isKeyForAction key action
    /\ Input.handleKeyDown (toLowerCase key) activeKeys
       = Input.handleKeyDown key activeKeys
    /\ Input.handleKeyUp (toLowerCase key) activeKeys
       = Input.handleKeyUp key activeKeys.
Proof.
  intros key action activeKeys.
  split; [apply toLowerCase_idempotent|].
  split; [apply isKeyForAction_lower|].
  unfold Input.handleKeyDown, Input.handleKeyUp.
  rewrite toLowerCase_idempotent. split; reflexivity.
Qed.

(** Membership in the key set, as a proposition. *)
Lemma has_In (keys : list string) (key : string) :
  Input.has keys key = true <-> In key keys.
Proof.
  unfold Input.has; rewrite existsb_exists; split.
  - intros (k & Hin & E). apply String.eqb_eq in E. now subst.
  - intros Hin; exists key; split; [assumption | apply String.eqb_refl].
Qed.

Lemma has_not_In (keys : list string) (key : string) :
  Input.has keys key = false <-> ~ In key keys.
Proof.
  rewrite <- has_In. destruct (Input.has keys key); split; congruence.
Qed.

Lemma In_delete (keys : list string) (key k : string) :
  In k (Input.delete keys key) <-> In k keys /\ k <> key.
Proof.
  unfold Input.delete; rewrite filter_In, negb_true_iff, String.eqb_neq.
  split; intros [A B]; split; auto.
Qed.

Lemma delete_not_In (keys : list string) (key : string) :
  ~ In key keys -> Input.delete keys key = keys.
Proof.
  unfold Input.delete; induction keys as [|k keys IH]; intros Hn; simpl;
    [reflexivity|].
  destruct (String.eqb_spec key k) as [->|Hk]; simpl.
  - elim Hn; now left.
  - f_equal; apply IH; intros Hin; apply Hn; now right.
Qed.

Lemma delete_add (keys : list string) (key : string) :
  ~ In key keys -> Input.delete (Input.add keys key) key = keys.
Proof.
  intros Hn; unfold Input.add.
  replace (Input.has keys key) with false
    by (symmetry; now apply has_not_In).
  unfold Input.delete; rewrite filter_app; simpl.
  rewrite String.eqb_refl; simpl. rewrite app_nil_r.
  now apply delete_not_In.
Qed.

(** The keys the handler keeps: movement keys, in lower case, each once. *)
Lemma keys_inv_down (key : string) (keys : list string) :
  NoDup keys ->
  Forall (fun k => isKeyForAction k "up" || isKeyForAction k "down" = true
                   /\ toLowerCase k = k) keys ->
  let keys' := fst (Input.handleKeyDown key keys) in
  NoDup keys'
  /\ Forall (fun k => isKeyForAction k "up" || isKeyForAction k "down" = true
                      /\ toLowerCase k = k) keys'.
Proof.
  intros Hnd Hall; unfold Input.handleKeyDown.
  destruct (isKeyForAction (toLowerCase key) "pause"); [now split|].
  destruct (isKeyForAction (toLowerCase key) "restart"); [now split|].
  destruct (isKeyForAction (toLowerCase key) "up"
            || isKeyForAction (toLowerCase key) "down") eqn:Em;
    [|now split].
  destruct (Input.has keys (toLowerCase key)) eqn:Eh; simpl; [now split|].
  unfold Input.add; rewrite Eh. apply has_not_In in Eh.
  split.
  - apply NoDup_app; [assumption | repeat constructor; intros [] | ].
    intros k Hin [<-|[]]. contradiction.
  - apply Forall_app; split; [assumption|].
    constructor; [|constructor].
    split; [exact Em | apply toLowerCase_idempotent].
Qed.

Lemma keys_inv_up (key : string) (keys : list string) :
  NoDup keys ->
  Forall (fun k => isKeyForAction k "up" || isKeyForAction k "down" = true
                   /\ toLowerCase k = k) keys ->
  let keys' := fst (Input.handleKeyUp key keys) in
  NoDup keys'
  /\ Forall (fun k => isKeyForAction k "up" || isKeyForAction k "down" = true
                      /\ toLowerCase k = k) keys'.
Proof.
  intros Hnd Hall; unfold Input.handleKeyUp.
  destruct (Input.has keys (toLowerCase key)); simpl; [|now split].
  unfold Input.delete; split.
  - now apply NoDup_filter.
  - rewrite Forall_forall in *. intros k Hin.
    apply filter_In in Hin as [Hin _]. now apply Hall.
Qed.

(** The engine's [playerMovement] after the intents of one key event. *)
Lemma dispatch_move (keys : list string) (u1 u2 : R) (e : Engine.t) :
  Engine.playerMovement
    (Session.dispatch [Input.updateMovementState keys] u1 u2 e)
  = Input.calculateMovement keys.
Proof. reflexivity. Qed.

Lemma keyStep_inv (ev : Session.KeyEvent) (s : list string * Engine.t) :
  let inv (s : list string * Engine.t) :=
    NoDup (fst s)
    /\ Forall (fun k => isKeyForAction k "up" || isKeyForAction k "down" = true
                        /\ toLowerCase k = k) (fst s)
    /\ Engine.playerMovement (snd s) = Input.calculateMovement (fst s) in
  inv s -> inv (Session.keyStep ev s).
Proof.
  intros inv (Hnd & Hall & Hm); destruct s as [keys e]; simpl in *.
  destruct ev as [key u1 u2 | key]; unfold inv, Session.keyStep; simpl.
  - pose proof (keys_inv_down key keys Hnd Hall) as [A B].
    destruct (Input.handleKeyDown key keys) as [keys' actions] eqn:E.
    simpl in *. split; [exact A|]. split; [exact B|].
    unfold Input.handleKeyDown in E.
    destruct (isKeyForAction (toLowerCase key) "pause");
      [injection E as <- <-; exact Hm|].
    destruct (isKeyForAction (toLowerCase key) "restart");
      [injection E as <- <-; exact Hm|].
    destruct (isKeyForAction (toLowerCase key) "up"
              || isKeyForAction (toLowerCase key) "down");
      [|injection E as <- <-; exact Hm].
    destruct (negb (Input.has keys (toLowerCase key)));
      injection E as <- <-; [apply dispatch_move | exact Hm].
  - pose proof (keys_inv_up key keys Hnd Hall) as [A B].
    destruct (Input.handleKeyUp key keys) as [keys' actions] eqn:E.
    simpl in *. split; [exact A|]. split; [exact B|].
    unfold Input.handleKeyUp in E.
    destruct (Input.has keys (toLowerCase key));
      injection E as <- <-; [apply dispatch_move | exact Hm].
Qed.

Lemma keyRun_inv (evs : list Session.KeyEvent) :
  forall s : list string * Engine.t,
    NoDup (fst s)
    /\ Forall (fun k => isKeyForAction k "up" || isKeyForAction k "down" = true
                        /\ toLowerCase k = k) (fst s)
    /\ Engine.playerMovement (snd s) = Input.calculateMovement (fst s) ->
    let s' := Session.keyRun evs s in
    NoDup (fst s')
    /\ Forall (fun k => isKeyForAction k "up" || isKeyForAction k "down" = true
                        /\ toLowerCase k = k) (fst s')
    /\ Engine.playerMovement (snd s') = Input.calculateMovement (fst s').
Proof.
  induction evs as [|ev evs IH]; intros s Hs; simpl; [exact Hs|].
  apply IH. now apply keyStep_inv.
Qed.

(** X20.  Whatever keys are pressed and released, the handler's set of
    active keys holds only movement keys, each in lower case and at most
    once. *)
Theorem activeKeys_invariant :
  forall (evs : list Session.KeyEvent) (e : Engine.t),
    let keys := fst (Session.keyRun evs ([], e)) in
    NoDup keys
    /\ (forall k, In k keys ->
          (isKeyForAction k "up" = true \/ isKeyForAction k "down" = true)
          /\ toLowerCase k = k).
Proof.
  intros evs e keys.
  destruct (keyRun_inv evs ([], Engine.mk (Engine.store e) 0 (Engine.ai e)))
    as (A & B & _).
  { simpl; repeat split; constructor. }
  assert (Hk : forall e1 e2 evs' keys0,
             fst (Session.keyRun evs' (keys0, e1))
             = fst (Session.keyRun evs' (keys0, e2))).
  { intros e1 e2 evs'; revert e1 e2.
    induction evs' as [|ev evs' IH]; intros e1 e2 keys0; simpl;
      [reflexivity|].
    destruct ev as [key u1 u2 | key]; simpl.
    - destruct (Input.handleKeyDown key keys0); apply IH.
    - destruct (Input.handleKeyUp key keys0); apply IH. }
  unfold keys.
  rewrite (Hk e (Engine.mk (Engine.store e) 0 (Engine.ai e))).
  split; [exact A|].
  intros k Hin. rewrite Forall_forall in B.
  destruct (B k Hin) as [Hm Hl]. split; [|exact Hl].
  now apply orb_prop in Hm.
Qed.

(** X21.  With the key events routed through the input handler into the
    engine, the engine's [playerMovement] always equals the movement of the
    keys currently held, and is one of -1, 0 and 1. *)
Theorem playerMovement_mirrors_keys :
  forall (evs : list Session.KeyEvent) (e : Engine.t),
    Engine.playerMovement e = 0%Z ->
    let s := Session.keyRun evs ([], e) in
    Engine.playerMovement (snd s) = Input.calculateMovement (fst s)
    /\ (Engine.playerMovement (snd s) = (-1)%Z
        \/ Engine.playerMovement (snd s) = 0%Z
        \/ Engine.playerMovement (snd s) = 1%Z).
Proof.
  intros evs e He s.
  destruct (keyRun_inv evs ([], e)) as (_ & _ & Hm).
  { simpl; repeat split; try constructor. exact He. }
  fold s in Hm. split; [exact Hm|]. rewrite Hm.
  unfold Input.calculateMovement.
  destruct (Input.somePressed (fst s) "up"),
           (Input.somePressed (fst s) "down"); simpl; auto.
Qed.

Lemma playerMovement_mirrors_keys_witness :
  let s := Session.keyRun
             [Session.KeyDown "ArrowUp" 0 0; Session.KeyDown "s" 0 0;
              Session.KeyUp "ArrowUp"]
             ([], Engine.mk Store.initial 0 (AI.Own AI.normal)) in
  Engine.playerMovement (snd s) = Input.calculateMovement (fst s).
Proof.
  intros s.
  exact (proj1 (playerMovement_mirrors_keys
                  [Session.KeyDown "ArrowUp" 0 0; Session.KeyDown "s" 0 0;
                   Session.KeyUp "ArrowUp"]
                  (Engine.mk Store.initial 0 (AI.Own AI.normal)) eq_refl)).
Defined.

(** A movement key is neither a pause nor a restart key. *)
Lemma movement_key_not_action (key : string) :
  isKeyForAction key "up" || isKeyForAction key "down" = true ->
  isKeyForAction key "pause" = false /\ isKeyForAction key "restart" = false.
Proof.
  unfold isKeyForAction, getKeysForAction; simpl.
  set (k := toLowerCase key).
  destruct (String.eqb_spec k "arrowup") as [->|_]; [now split|].
  destruct (String.eqb_spec k "w") as [->|_]; [now split|].
  destruct (String.eqb_spec k "arrowdown") as [->|_]; [now split|].
  destruct (String.eqb_spec k "s") as [->|_]; [now split|].
  discriminate.
Qed.

(** X22.  Pressing a movement key that is not held adds its lower-case
    name to the active keys and reports the new movement; pressing it again
    while held (key repeat) reports nothing; releasing it restores the
    active keys as they were and reports their movement. *)
Theorem key_press_release_round_trip :
  forall (key : string) (activeKeys : list string),
    isKeyForAction key "up" = true \/ isKeyForAction key "down" = true ->
    ~ In (toLowerCase key) activeKeys ->
    let pressed := activeKeys ++ [toLowerCase key] in
    Input.handleKeyDown key activeKeys
      = (pressed, [Input.Move (Input.calculateMovement pressed)])
    /\ Input.handleKeyDown key pressed = (pressed, [])
    /\ Input.handleKeyUp key pressed
       = (activeKeys, [Input.Move (Input.calculateMovement activeKeys)]).
Proof.
  intros key activeKeys Hk Hn pressed.
  assert (Hm : isKeyForAction (toLowerCase key) "up"
               || isKeyForAction (toLowerCase key) "down" = true).
  { rewrite !isKeyForAction_lower. destruct Hk as [-> | ->];
      [reflexivity | apply orb_true_r]. }
  destruct (movement_key_not_action _ Hm) as [Hp Hr].
  assert (Hadd : Input.add activeKeys (toLowerCase key) = pressed).
  { unfold Input.add.
    replace (Input.has activeKeys (toLowerCase key)) with false
      by (symmetry; now apply has_not_In). reflexivity. }
  assert (Hin : Input.has pressed (toLowerCase key) = true).
  { apply has_In, in_or_app; right; now left. }
  split; [|split].
  - unfold Input.handleKeyDown. rewrite Hp, Hr, Hm.
    replace (Input.has activeKeys (toLowerCase key)) with false
      by (symmetry; now apply has_not_In).
    simpl. rewrite Hadd. reflexivity.
  - unfold Input.handleKeyDown. rewrite Hp, Hr, Hm, Hin. reflexivity.
  - unfold Input.handleKeyUp. rewrite Hin.
    rewrite <- Hadd at 1 2. rewrite delete_add by assumption. reflexivity.
Qed.

Lemma key_press_release_round_trip_witness :
  Input.handleKeyUp "W" ["arrowdown"; "w"]%string
  = (["arrowdown"]%string,
     [Input.Move (Input.calculateMovement ["arrowdown"]%string)]).
Proof.
  apply (key_press_release_round_trip "W" ["arrowdown"]%string).
  - left; reflexivity.
  - simpl; intros [H|[]]; discriminate.
Defined.

(** X23.  A key that is no movement key never touches the movement state:
    pressing it leaves the active keys alone and reports at most a pause or
    a restart, and releasing a key that is not held does nothing at all. *)
Theorem other_keys_leave_movement_alone :
  forall (key : string) (activeKeys : list string),
    isKeyForAction key "up" = false ->
    isKeyForAction key "down" = false ->
    fst (Input.handleKeyDown key activeKeys) = activeKeys
    /\ (snd (Input.handleKeyDown key activeKeys) = [Input.Pause]
        \/ snd (Input.handleKeyDown key activeKeys) = [Input.Restart]
        \/ snd (Input.handleKeyDown key activeKeys) = [])
    /\ (~ In (toLowerCase key) activeKeys ->
        Input.handleKeyUp key activeKeys = (activeKeys, [])).
Proof.
  intros key activeKeys Hu Hd.
  unfold Input.handleKeyDown, Input.handleKeyUp.
  rewrite !isKeyForAction_lower, Hu, Hd.
  destruct (isKeyForAction key "pause"); simpl; [auto 6|].
  - split; [reflexivity|]. split; [now left|].
    intros Hn. replace (Input.has activeKeys (toLowerCase key)) with false
      by (symmetry; now apply has_not_In). reflexivity.
  - destruct (isKeyForAction key "restart"); simpl;
      (split; [reflexivity|]; split; [auto|]);
      intros Hn;
      replace (Input.has activeKeys (toLowerCase key)) with false
        by (symmetry; now apply has_not_In); reflexivity.
Qed.

Lemma other_keys_leave_movement_alone_witness :
  fst (Input.handleKeyDown "R" ["w"]%string) = ["w"]%string.
Proof.
  apply (other_keys_leave_movement_alone "R" ["w"]%string); reflexivity.
Defined.

(** ** inputHandler.js: pointer events *)

Lemma gestures_moves (ms : list Pointer.Event) (rest : list Pointer.Gesture)
    (active : bool) :
  Pointer.gestures (map Pointer.MoveTo ms ++ rest) active
  = (fst (Pointer.gestures rest active),
     (if active then map Pointer.offsetY ms else [])
     ++ snd (Pointer.gestures rest active)).
Proof.
  induction ms as [|m ms IH]; simpl.
  - destruct (Pointer.gestures rest active), active; reflexivity.
  - rewrite IH. unfold Pointer.handlePointerMove.
    destruct active; reflexivity.
Qed.

(** X24.  Pointer moves reach the engine only during a drag that began on
    the left half of the canvas: such a drag forwards the vertical
    coordinate of each of its moves, in order, and ends inactive; and as
    long as every pointer-down lands on the right half, no move is
    forwarded at all. *)
Theorem pointer_drag :
  forall (down : Pointer.Event) (ms : list Pointer.Event) (active : bool)
         (gs : list Pointer.Gesture),
    (Pointer.offsetX down <= Pointer.targetOffsetWidth down * 0.5 ->
     Pointer.gestures
       (Pointer.Down down :: map Pointer.MoveTo ms ++ [Pointer.Up]) active
     = (false, map Pointer.offsetY ms))
    /\ (Forall (fun g => match g with
                         | Pointer.Down ev =>
                             Pointer.targetOffsetWidth ev * 0.5
                             < Pointer.offsetX ev
                         | _ => True
                         end) gs ->
        Pointer.gestures gs false = (false, [])).
Proof.
  intros down ms active gs; split.
  - intros Hx.
    change (Pointer.gestures
              (Pointer.Down down :: map Pointer.MoveTo ms ++ [Pointer.Up])
              active)
      with (let '(a, _, ys) := Pointer.gesture (Pointer.Down down) active in
            let '(final, more) :=
              Pointer.gestures (map Pointer.MoveTo ms ++ [Pointer.Up]) a in
            (final, ys ++ more)).
    unfold Pointer.gesture, Pointer.handlePointerDown.
    replace (Js.leb (Pointer.offsetX down)
                    (Pointer.targetOffsetWidth down * 0.5)) with true
      by (symmetry; now apply leb_true).
    rewrite gestures_moves; simpl. now rewrite app_nil_r.
  - induction gs as [|g gs IH]; intros Hall; [reflexivity|].
    inversion Hall as [|g' gs' Hg Hgs]; subst.
    destruct g as [ev | ev |]; simpl.
    + unfold Pointer.handlePointerDown.
      replace (Js.leb (Pointer.offsetX ev)
                      (Pointer.targetOffsetWidth ev * 0.5)) with false
        by (symmetry; now apply leb_false).
      now rewrite (IH Hgs).
    + now rewrite (IH Hgs).
    + unfold Pointer.handlePointerUp. now rewrite (IH Hgs).
Qed.

(** ** GameCanvas.svelte: resizing *)

(** X25.  Whatever rectangle and pixel ratio the browser reports,
    [handleResize] writes a canvas at least [MIN_WIDTH] wide and
    [MIN_HEIGHT] high, with whole-number dimensions and a pixel ratio of at
    most [MAX_DPR]; a rectangle wider than the minimum keeps its width
    rounded down; and resetting the paddle positions on that canvas puts
    both paddles within bounds. *)
Theorem handleResize_spec :
  forall (rectWidth rectHeight devicePixelRatio : R) (st : Store.t),
    let c := GameCanvas.handleResize rectWidth rectHeight devicePixelRatio in
    let st' := Store.resetPositions (Store.set_canvas c st) in
    GAME_CONFIG.MIN_WIDTH <= c_width c
    /\ GAME_CONFIG.MIN_HEIGHT <= c_height c
    /\ c_dpr c <= GAME_CONFIG.MAX_DPR
    /\ (exists w h : Z, c_width c = IZR w /\ c_height c = IZR h)
    /\ (GAME_CONFIG.MIN_WIDTH <= rectWidth ->
        rectWidth - 1 < c_width c <= rectWidth)
    /\ in_bounds (left (Store.paddles st')) (c_height c)
    /\ in_bounds (right (Store.paddles st')) (c_height c).
Proof.
  intros rectWidth rectHeight devicePixelRatio st c st'.
  assert (Hw : GAME_CONFIG.MIN_WIDTH <= c_width c) by apply Rmax_l.
  assert (Hh : GAME_CONFIG.MIN_HEIGHT <= c_height c) by apply Rmax_l.
  split; [exact Hw|]. split; [exact Hh|].
  split; [apply Rmin_r|].
  split; [|split].
  - unfold c, GameCanvas.handleResize, GameCanvas.floor,
      GAME_CONFIG.MIN_WIDTH, GAME_CONFIG.MIN_HEIGHT; simpl.
    unfold Rmax.
    destruct (Rle_dec 480 _), (Rle_dec 320 _); eauto.
  - intros Hr.
    unfold c, GameCanvas.handleResize, GameCanvas.floor,
      GAME_CONFIG.MIN_WIDTH in *; simpl.
    pose proof (base_Int_part rectWidth) as [A B].
    assert (Hi : (480 <= Int_part rectWidth)%Z).
    { apply Z.lt_succ_r, lt_IZR.
      rewrite succ_IZR. lra. }
    apply IZR_le in Hi. rewrite Rmax_right by exact Hi. lra.
  - apply (resetPositions_in_bounds (Store.set_canvas c st)).
    change (GAME_CONFIG.MIN_PADDLE_HEIGHT <= c_height c).
    unfold GAME_CONFIG.MIN_PADDLE_HEIGHT, GAME_CONFIG.MIN_HEIGHT in *.
    lra.
Qed.

(** ** gameStore.js and gameEngine.js: resets, tunnelling, speed *)

(** X26.  [resetMatch] is a full reset: its result depends on the canvas
    and the two random samples only, so a second reset with the same
    samples changes nothing, whatever happened in between the stores; it
    zeroes the scores, clears both flags, and centres both paddles and the
    ball. *)
Theorem resetMatch_full_reset :
  forall (u_side u_angle : R) (st st2 : Store.t),
    let r := Store.resetMatch u_side u_angle st in
    (Store.canvas st2 = Store.canvas st ->
     Store.resetMatch u_side u_angle st2 = r)
    /\ Store.resetMatch u_side u_angle r = r
    /\ Store.gameState r = mkGameState false false 0 0
    /\ Store.canvas r = Store.canvas st
    /\ left (Store.paddles r) = right (Store.paddles r)
    /\ p_height (left (Store.paddles r))
       = Rmax GAME_CONFIG.MIN_PADDLE_HEIGHT
              (c_height (Store.canvas st) * GAME_CONFIG.PADDLE_HEIGHT_RATIO)
    /\ p_y (left (Store.paddles r))
       = (c_height (Store.canvas st) - p_height (left (Store.paddles r))) / 2
    /\ b_x (Store.ball r) = c_width (Store.canvas st) / 2
    /\ b_y (Store.ball r) = c_height (Store.canvas st) / 2.
Proof.
  intros u_side u_angle st st2 r.
  split; [|repeat split].
  intros Hc. subst r.
  unfold Store.resetMatch, Store.resetBall, Store.resetPositions,
    Store.set_ball, Store.set_paddles, Store.set_gameState; simpl.
  now rewrite Hc.
Qed.

(** X27.  A ball slower than 17 per tick horizontally cannot jump over a
    paddle's band: when a tick carries it from outside the band to the
    paddle's face or beyond, within the paddle's vertical span, the paddle
    check fires. *)
Theorem no_tunnelling :
  forall (ball : Ball) (paddle : Paddle) (canvasWidth canvasHeight : R),
    let b' :=
      Engine.resolveWall (Physics.updateBallPosition ball) canvasHeight in
    p_y paddle <= b_y b' <= p_y paddle + p_height paddle ->
    (- 17 < b_vx ball < 0 -> 37 < b_x ball -> b_x b' <= 37 ->
     exists c,
       Physics.checkPaddleCollision b' paddle true canvasWidth = Some c)
    /\ (0 < b_vx ball < 17 -> b_x ball < canvasWidth - 37 ->
        canvasWidth - 37 <= b_x b' ->
        exists c,
          Physics.checkPaddleCollision b' paddle false canvasWidth = Some c).
Proof.
  intros ball paddle canvasWidth canvasHeight b' Hy.
  assert (Hx : b_x b' = b_x ball + b_vx ball /\ b_vx b' = b_vx ball).
  { unfold b'.
    destruct (resolveWall_cases (Physics.updateBallPosition ball)
                                canvasHeight)
      as [(_ & _ & ->) | [(_ & _ & ->) | (_ & _ & ->)]]; simpl; auto. }
  destruct Hx as [Hx Hv].
  split; intros Hvx H0 H1.
  - apply checkPaddleCollision_left_hit; [lra | exact Hy | lra].
  - apply checkPaddleCollision_right_hit; [lra | exact Hy | lra].
Qed.

Lemma no_tunnelling_witness :
  exists c,
    Physics.checkPaddleCollision
      (Engine.resolveWall
         (Physics.updateBallPosition (mkBall 45 250 (-13) 1)) 500)
      (mkPaddle 205 90) true 800 = Some c.
Proof.
  apply (no_tunnelling (mkBall 45 250 (-13) 1) (mkPaddle 205 90) 800 500).
  - assert (E : Engine.resolveWall
                  (Physics.updateBallPosition (mkBall 45 250 (-13) 1)) 500
                = Physics.updateBallPosition (mkBall 45 250 (-13) 1)).
    { destruct (resolveWall_cases
                  (Physics.updateBallPosition (mkBall 45 250 (-13) 1)) 500)
        as [(A & _) | [(A & _) | (_ & _ & E)]];
        [ unfold Physics.ballRadius, GAME_CONFIG.BALL_SIZE in A;
          simpl in A; lra
        | unfold Physics.ballRadius, GAME_CONFIG.BALL_SIZE in A;
          simpl in A; lra
        | exact E ]. }
    rewrite E; simpl; lra.
  - simpl; lra.
  - simpl; lra.
  - assert (Hx : b_x (Engine.resolveWall
                        (Physics.updateBallPosition (mkBall 45 250 (-13) 1))
                        500) = 45 + -13).
    { destruct (resolveWall_cases
                  (Physics.updateBallPosition (mkBall 45 250 (-13) 1)) 500)
        as [(_ & _ & ->) | [(_ & _ & ->) | (_ & _ & ->)]]; reflexivity. }
    rewrite Hx; lra.
Defined.

Lemma calculateReflection_vx_abs (h : R) (isLeft : bool) (cvx cvy : R) :
  Rabs (Physics.vx (Physics.calculateReflection h isLeft cvx cvy))
  <= GAME_CONFIG.BALL_SPEED_MAX.
Proof.
  pose proof (reflectionSpeed_range cvx cvy) as [Hs0 Hs1].
  pose proof (COS_bound (Physics.reflectionAngle h)) as Hc.
  unfold Physics.calculateReflection; simpl.
  apply Rabs_le; destruct isLeft; nra.
Qed.

Lemma resetBall_vx_abs (toLeft : bool) (u : R) (st : Store.t) :
  Rabs (b_vx (Store.ball (Store.resetBall toLeft u st)))
  <= GAME_CONFIG.BALL_SPEED_MAX.
Proof.
  pose proof (COS_bound (Store.serveAngle toLeft u)) as Hc.
  unfold Store.resetBall; simpl.
  unfold GAME_CONFIG.BALL_SPEED_START, GAME_CONFIG.BALL_SPEED_MAX.
  apply Rabs_le; destruct toLeft; lra.
Qed.

Lemma b_vx_resolvePaddle
    (ball : Ball) (paddle : Paddle) (isLeft : bool) (canvasWidth : R) :
  Rabs (b_vx ball) <= GAME_CONFIG.BALL_SPEED_MAX ->
  Rabs (b_vx (Engine.resolvePaddle ball paddle isLeft canvasWidth))
  <= GAME_CONFIG.BALL_SPEED_MAX.
Proof.
  intros H; unfold Engine.resolvePaddle.
  destruct (Physics.checkPaddleCollision _ _ _ _); [|exact H].
  apply calculateReflection_vx_abs.
Qed.

Lemma vx_ok_updatePhysics
    (m : Z) (d : AI.Settings) (u_ai u_serve : R) (st : Store.t) :
  Rabs (b_vx (Store.ball st)) <= GAME_CONFIG.BALL_SPEED_MAX ->
  Rabs (b_vx (Store.ball (Engine.updatePhysics m d u_ai u_serve st)))
  <= GAME_CONFIG.BALL_SPEED_MAX.
Proof.
  intros H; unfold Engine.updatePhysics.
  destruct (Physics.checkScoring _ _) as [side|].
  - unfold Store.scorePoint. apply resetBall_vx_abs.
  - simpl. unfold Engine.resolvePaddles.
    apply b_vx_resolvePaddle, b_vx_resolvePaddle.
    rewrite b_vx_resolveWall. exact H.
Qed.

(** X28.  In a game started by the engine the ball's horizontal speed never
    exceeds [BALL_SPEED_MAX], whatever frames, key actions, touch moves,
    difficulty changes and resizes follow: serves stay below it, walls do
    not change it and paddle reflections cap it. *)
Theorem horizontal_speed_invariant :
  forall (st0 : Store.t) (u_side u_angle : R) (evs : list Session.Event),
    Rabs (b_vx (Store.ball
                  (Engine.store
                     (Session.run evs (Session.start u_side u_angle st0)))))
    <= GAME_CONFIG.BALL_SPEED_MAX.
Proof.
  intros st0 u_side u_angle evs.
  assert (G : forall e,
             Rabs (b_vx (Store.ball (Engine.store e)))
               <= GAME_CONFIG.BALL_SPEED_MAX ->
             Rabs (b_vx (Store.ball (Engine.store (Session.run evs e))))
               <= GAME_CONFIG.BALL_SPEED_MAX).
  { induction evs as [|ev evs IH]; intros e He; simpl; [exact He|].
    apply IH.
    destruct ev as [u_ai u_serve | a u1 u2 | y | d | w h r];
      unfold Session.step.
    - unfold Engine.gameLoop.
      destruct (negb _ && negb _); cbn [Engine.store];
        [now apply vx_ok_updatePhysics | exact He].
    - destruct a; unfold Engine.handleKeyAction; cbn [Engine.store];
        try exact He.
      unfold Store.resetMatch. apply resetBall_vx_abs.
    - exact He.
    - exact He.
    - exact He. }
  apply G. unfold Session.start, Store.resetMatch; cbn [Engine.store].
  apply resetBall_vx_abs.
Qed.
